(** * Verification of scripts/analyze-build-output.mjs

    A shallow embedding of the post-build bundle analysis script and the
    properties of its locator ([findFuncDirs]), inventory ([walkFiles]),
    grouping, ordering, suspicion detection, size formatting and report
    rendering.

    Conventions of the embedding.
    - JavaScript strings are byte strings ([string]); literals that hold
      non-ASCII characters are their UTF-8 encoding.
    - File sizes, counts and their sums are JavaScript Numbers holding
      non-negative integers; they are modelled in [N].  Binary64 arithmetic
      on such integers is exact below 2^53, and so is their division by a
      power of two, which is the range the embedding speaks about.
    - The file system is a finite tree ([node]).  A [Dirent] whose
      [isDirectory()] is false (regular file, symbolic link, socket, ...) is a
      [File]; symbolic links are therefore never descended into.
    - [console.log] appends one string to the output; an uncaught exception
      and [process.exit] end the run ([completion]). *)

From Stdlib Require Import NArith ZArith List String Ascii Bool Lia.
From Stdlib Require Import DecimalString Permutation Sorted.
Import ListNotations.
Set Warnings "-register-all".
Open Scope string_scope.
Open Scope N_scope.

(** ** JavaScript string primitives *)

Definition nl : string := String (ascii_of_nat 10) EmptyString.
Definition dquote : string := String (ascii_of_nat 34) EmptyString.
Definition sep : ascii := "/"%char.

(** [String(n)] for a non-negative integer Number. *)
Definition dec (n : N) : string := NilEmpty.string_of_uint (N.to_uint n).

(** [String.prototype.toLowerCase], on the ASCII letters.  No character
    outside ASCII lower-cases to a letter that occurs in
    [systemDirPatterns]. *)
Definition lower_ascii (c : ascii) : ascii :=
  let n := N_of_ascii c in
  if (65 <=? n) && (n <=? 90) then ascii_of_N (n + 32) else c.

Fixpoint toLowerCase (s : string) : string :=
  match s with
  | EmptyString => EmptyString
  | String c s' => String (lower_ascii c) (toLowerCase s')
  end.

(** [s.startsWith(p)] *)
Definition startsWith (s p : string) : bool := String.prefix p s.

(** [s.endsWith(p)] *)
Fixpoint endsWith (s p : string) : bool :=
  if String.eqb s p then true
  else match s with
       | EmptyString => false
       | String _ s' => endsWith s' p
       end.

(** [s.includes(p)] *)
Fixpoint includes (s p : string) : bool :=
  if String.prefix p s then true
  else match s with
       | EmptyString => false
       | String _ s' => includes s' p
       end.

(** [s.repeat(n)] *)
Fixpoint repeat_str (s : string) (n : nat) : string :=
  match n with
  | O => EmptyString
  | S n' => s ++ repeat_str s n'
  end.

(** [s.split(c)] for a one-character separator: never empty. *)
Fixpoint split (c : ascii) (s : string) : list string :=
  match s with
  | EmptyString => [EmptyString]
  | String a s' =>
      if Ascii.eqb a c then EmptyString :: split c s'
      else match split c s' with
           | [] => [String a EmptyString]
           | h :: t => String a h :: t
           end
  end.

(** [l.join(d)] *)
Fixpoint join (d : string) (l : list string) : string :=
  match l with
  | [] => EmptyString
  | [x] => x
  | x :: l' => x ++ d ++ join d l'
  end.

(** ** Paths

    A path is the list of its segments below the file-system root.  All paths
    the script builds are normalised: they come from [process.cwd()] and
    [path.join] with entry names. *)

Definition path := list string.

Definition path_join (dir : path) (names : list string) : path := (dir ++ names)%list.

Fixpoint strip_common (from to : path) : path * path :=
  match from, to with
  | a :: from', b :: to' =>
      if String.eqb a b then strip_common from' to' else (from, to)
  | _, _ => (from, to)
  end.

(** [path.relative(from, to)]: climb out of what is left of [from], then go
    down what is left of [to]. *)
Definition path_relative (from to : path) : string :=
  let (up, down) := strip_common from to in
  join "/" (map (fun _ => "..") up ++ down)%list.

(** ** Size formatting *)

(** The integer [n] with [n / 10] closest to [num / den], the larger one on
    a tie. *)
Definition tenths (num den : N) : N := (20 * num + den) / (2 * den).

(** [(num / den).toFixed(1)] for the exactly represented quotient: its
    closest number of tenths, printed with one fractional digit. *)
Definition toFixed1 (num den : N) : string :=
  let n := tenths num den in
  dec (n / 10) ++ "." ++ dec (n mod 10).

Definition formatSize (bytes : N) : string :=
  if 1024 * 1024 <=? bytes then toFixed1 bytes (1024 * 1024) ++ " MB"
  else if 1024 <=? bytes then toFixed1 bytes 1024 ++ " KB"
  else dec bytes ++ " B".

(** ** JSON values and the descriptor *)

(** The value [JSON.parse] returns.  A number is kept as the text
    [String(x)] prints for it; an object as its own properties. *)
Inductive json : Type :=
| JNull
| JBool (b : bool)
| JNum (repr : string)
| JStr (s : string)
| JArr (elems : list json)
| JObj (props : list (string * json)).

(** The value of a property read: [undefined] when the property is absent. *)
Inductive jsval : Type :=
| Undefined
| Val (v : json).

Inductive error : Type :=
| FsError      (* a failing node:fs call: ENOENT, ENOTDIR, EACCES, EISDIR, EIO *)
| SyntaxError  (* JSON.parse on malformed text *)
| TypeError.   (* property read of null or undefined, call of a non-function *)

Inductive result (A : Type) : Type :=
| Ok (a : A)
| Throw (e : error).
Arguments Ok {A} a.
Arguments Throw {A} e.

Fixpoint lookup {A : Type} (k : string) (l : list (string * A)) : option A :=
  match l with
  | [] => None
  | (k', a) :: l' => if String.eqb k k' then Some a else lookup k l'
  end.

(** [v.handler], [v.runtime]: a property that no built-in prototype defines. *)
Definition get_prop (v : json) (k : string) : result jsval :=
  match v with
  | JNull => Throw TypeError
  | JObj props =>
      match lookup k props with
      | Some x => Ok (Val x)
      | None => Ok Undefined
      end
  | _ => Ok Undefined
  end.

(** The text a template literal substitutes for a value ([ToString]).  An
    object whose own [toString] property hides the inherited method cannot be
    converted: a JSON value is never callable. *)
Fixpoint json_to_string (v : json) : result string :=
  match v with
  | JNull => Ok "null"
  | JBool true => Ok "true"
  | JBool false => Ok "false"
  | JNum repr => Ok repr
  | JStr s => Ok s
  | JArr elems =>
      match
        (fix each (es : list json) : result (list string) :=
           match es with
           | [] => Ok []
           | e :: es' =>
               match (match e with
                      | JNull => Ok EmptyString
                      | _ => json_to_string e
                      end) with
               | Ok s =>
                   match each es' with
                   | Ok l => Ok (s :: l)
                   | Throw x => Throw x
                   end
               | Throw x => Throw x
               end
           end) elems
      with
      | Ok l => Ok (join "," l)
      | Throw x => Throw x
      end
  | JObj props =>
      match lookup "toString" props with
      | Some _ => Throw TypeError
      | None => Ok "[object Object]"
      end
  end.

Definition to_string (x : jsval) : result string :=
  match x with
  | Undefined => Ok "undefined"
  | Val v => json_to_string v
  end.

Definition is_string (s : string) (v : json) : bool :=
  match v with
  | JStr s' => String.eqb s' s
  | _ => false
  end.

(** [x.includes(s)]: defined on strings and on arrays only. *)
Definition js_includes (x : jsval) (s : string) : result bool :=
  match x with
  | Val (JStr h) => Ok (includes h s)
  | Val (JArr elems) => Ok (existsb (is_string s) elems)
  | _ => Throw TypeError
  end.

(** ** The file system *)

(** What [fs.readFileSync(p, 'utf-8')] followed by [JSON.parse] does on a
    file: the read fails, or it yields a text that parses ([Some]) or does
    not ([None]). *)
Inductive content : Type :=
| Unreadable
| Text (parsed : option json).

(** [File st c]: an entry that is not a directory; [st] is the size
    [fs.statSync] reports, [None] when the call fails (dangling link).
    [Dir es]: a directory; [es] is its listing, [None] when
    [fs.readdirSync] fails on it. *)
Inductive node : Type :=
| File (st : option N) (c : content)
| Dir (es : option (list (string * node))).

Definition isDirectory (n : node) : bool :=
  match n with
  | Dir _ => true
  | File _ _ => false
  end.

(** [fs.statSync(p).size] of an entry that is not a directory. *)
Definition statSync (st : option N) : result N :=
  match st with
  | Some size => Ok size
  | None => Throw FsError
  end.

(** [fs.existsSync(path.join(dir, name))] *)
Definition existsSync (dir : node) (name : string) : bool :=
  match dir with
  | Dir (Some es) =>
      match lookup name es with
      | Some (File None _) => false
      | Some _ => true
      | None => false
      end
  | _ => false
  end.

(** [JSON.parse(fs.readFileSync(path.join(dir, name), 'utf-8'))] *)
Definition readJson (dir : node) (name : string) : result json :=
  match dir with
  | Dir (Some es) =>
      match lookup name es with
      | Some (File (Some _) (Text (Some v))) => Ok v
      | Some (File (Some _) (Text None)) => Throw SyntaxError
      | _ => Throw FsError
      end
  | _ => Throw FsError
  end.

(** A directory the script holds a path to: the path and the subtree that the
    fs calls on this path read. *)
Definition located : Type := path * node.

(** ** ArtifactLocator *)

Fixpoint findFuncDirs (dir : path) (n : node) : result (list located) :=
  match n with
  | Dir (Some es) =>                         (* fs.readdirSync(dir, ...) *)
      (fix loop (es : list (string * node)) (results : list located) :=
         match es with
         | [] => Ok results
         | (name, entry) :: es' =>
             let full := path_join dir [name] in
             if isDirectory entry then
               if endsWith name ".func" then
                 loop es' (results ++ [(full, entry)])%list
               else
                 match findFuncDirs full entry with
                 | Ok sub => loop es' (results ++ sub)%list
                 | Throw e => Throw e
                 end
             else loop es' results
         end) es []
  | _ => Throw FsError
  end.

(** ** Inventory *)

Record file_entry : Type := { fpath : string; fsize : N }.

Fixpoint walkFiles (dir : path) (n : node) (base : path)
  : result (list file_entry) :=
  match n with
  | Dir (Some es) =>                         (* fs.readdirSync(dir, ...) *)
      (fix loop (es : list (string * node)) (results : list file_entry) :=
         match es with
         | [] => Ok results
         | (name, entry) :: es' =>
             let full := path_join dir [name] in
             match entry with
             | Dir _ =>                      (* entry.isDirectory() *)
                 match walkFiles full entry base with
                 | Ok sub => loop es' (results ++ sub)%list
                 | Throw e => Throw e
                 end
             | File st _ =>
                 match statSync st with
                 | Ok size =>
                     loop es' (results ++ [{| fpath := path_relative base full;
                                              fsize := size |}])%list
                 | Throw e => Throw e
                 end
             end
         end) es []
  | _ => Throw FsError
  end.

(** ** The [groups] object *)

Record group : Type := { count : N; size : N }.

(** The own properties of an object literal, in creation order. *)
Definition jsobject : Type := list (string * group).

(** The property names every object inherits from [Object.prototype]. *)
Definition object_prototype_keys : list string :=
  [ "constructor"; "__defineGetter__"; "__defineSetter__"; "hasOwnProperty";
    "__lookupGetter__"; "__lookupSetter__"; "isPrototypeOf";
    "propertyIsEnumerable"; "toString"; "valueOf"; "__proto__";
    "toLocaleString" ].

Definition in_prototype (k : string) : bool :=
  existsb (String.eqb k) object_prototype_keys.

(** What [o[k]] evaluates to: an own group, an inherited built-in (a function,
    or [Object.prototype] itself for [__proto__]), or [undefined]. *)
Inductive slot : Type :=
| Own (g : group)
| Inherited
| Absent.

Definition get (o : jsobject) (k : string) : slot :=
  match lookup k o with
  | Some g => Own g
  | None => if in_prototype k then Inherited else Absent
  end.

Definition truthy (s : slot) : bool :=
  match s with
  | Absent => false
  | _ => true
  end.

(** [o[k] = g] where [o[k]] is [undefined]: a new own property, last in
    creation order. *)
Definition define_own (o : jsobject) (k : string) (g : group) : jsobject :=
  (o ++ [(k, g)])%list.

(** [o[k].field = ...]: the write lands on the object that [o[k]] evaluates
    to.  For an own group that is the entry of [o]; for an inherited built-in
    it is that built-in, which the script never reads back, and [o] keeps its
    own properties. *)
Fixpoint update (o : jsobject) (k : string) (f : group -> group) : jsobject :=
  match o with
  | [] => []
  | (k', g) :: o' =>
      if String.eqb k k' then (k', f g) :: o' else (k', g) :: update o' k f
  end.

(** [Array.prototype.sort(cmp)]: the sort is stable, which fixes its result
    for a consistent comparator. *)
Fixpoint insert {A : Type} (cmp : A -> A -> Z) (x : A) (l : list A) : list A :=
  match l with
  | [] => [x]
  | y :: l' => if (cmp x y <=? 0)%Z then x :: l else y :: insert cmp x l'
  end.

Definition array_sort {A : Type} (cmp : A -> A -> Z) (l : list A) : list A :=
  fold_right (insert cmp) [] l.

(** An array index: the canonical decimal text of an integer below 2^32 - 1. *)
Definition array_index (k : string) : option N :=
  match NilEmpty.uint_of_string k with
  | Some u =>
      let n := N.of_uint u in
      if String.eqb (dec n) k && (n <? 4294967295) then Some n else None
  | None => None
  end.

Definition is_index {A : Type} (kv : string * A) : bool :=
  match array_index (fst kv) with
  | Some _ => true
  | None => false
  end.

Definition index_of {A : Type} (kv : string * A) : Z :=
  match array_index (fst kv) with
  | Some n => Z.of_N n
  | None => 0%Z
  end.

(** [Object.entries(o)]: own properties, array indices first in ascending
    numeric order, then the other keys in creation order. *)
Definition entries (o : jsobject) : list (string * group) :=
  (array_sort (fun a b => (index_of a - index_of b)%Z) (filter is_index o)
   ++ filter (fun kv => negb (is_index kv)) o)%list.

(** ** Grouping, ordering and suspicion *)

Definition topDir (f : file_entry) : string :=
  match nth_error (split sep (fpath f)) 0 with
  | Some s => if String.eqb s EmptyString then "(root)" else s
  | None => "(root)"
  end.

(** One iteration of the grouping loop. *)
Definition group_step (groups : jsobject) (f : file_entry) : jsobject :=
  let groups :=
    if negb (truthy (get groups (topDir f)))
    then define_own groups (topDir f) {| count := 0; size := 0 |}
    else groups in
  let groups :=
    update groups (topDir f)
           (fun g => {| count := count g + 1; size := size g |}) in
  update groups (topDir f)
         (fun g => {| count := count g; size := size g + fsize f |}).

Definition groups (files : list file_entry) : jsobject :=
  fold_left group_step files [].

Definition totalSize (files : list file_entry) : N :=
  fold_left (fun sum f => sum + fsize f) files 0.

Definition by_size_desc (a b : string * group) : Z :=
  (Z.of_N (size (snd b)) - Z.of_N (size (snd a)))%Z.

Definition sorted (files : list file_entry) : list (string * group) :=
  array_sort by_size_desc (entries (groups files)).

Definition systemDirPatterns : list string :=
  ["uv"; "node22"; "node20"; "node18"; ".vercel"; "usr"; "opt"; "tmp"].

Definition suspicious_with (patterns : list string) (dir : string) : bool :=
  existsb (fun p => startsWith (toLowerCase dir) p) patterns.

Definition suspicious : string -> bool := suspicious_with systemDirPatterns.

Definition suspiciousDirs (files : list file_entry) : list (string * group) :=
  filter (fun kv => suspicious (fst kv)) (sorted files).

(** ** Output and control *)

(** How a computation ends: normally, by [process.exit(code)], or by an
    exception nothing catches (the script has no [try]). *)
Inductive completion (A : Type) : Type :=
| Normal (a : A)
| Exit (code : N)
| Uncaught (e : error).
Arguments Normal {A} a.
Arguments Exit {A} code.
Arguments Uncaught {A} e.

(** The lines written by [console.log], in order, and the completion. *)
Definition io (A : Type) : Type := list string * completion A.

Definition ret {A : Type} (a : A) : io A := ([], Normal a).

Definition bind {A B : Type} (m : io A) (k : A -> io B) : io B :=
  match snd m with
  | Normal a => ((fst m ++ fst (k a))%list, snd (k a))
  | Exit code => (fst m, Exit code)
  | Uncaught e => (fst m, Uncaught e)
  end.

Definition log (line : string) : io unit := ([line], Normal tt).

Definition exit {A : Type} (code : N) : io A := ([], Exit code).

Definition lift {A : Type} (r : result A) : io A :=
  match r with
  | Ok a => ret a
  | Throw e => ([], Uncaught e)
  end.

Notation "x <- m ;; k" := (bind m (fun x => k))
  (at level 61, m at next level, right associativity).
Notation "m ;; k" := (bind m (fun _ => k))
  (at level 61, right associativity).

Fixpoint for_each {A : Type} (l : list A) (body : A -> io unit) : io unit :=
  match l with
  | [] => ret tt
  | x :: l' => body x ;; for_each l' body
  end.

(** The exit status of the process. *)
Definition status {A : Type} (c : completion A) : N :=
  match c with
  | Normal _ => 0
  | Exit code => code
  | Uncaught _ => 1
  end.

(** ** ArtifactReporter *)

Definition row (kv : string * group) : string :=
  "    " ++ fst kv ++ ": " ++ dec (count (snd kv)) ++ " files, "
  ++ formatSize (size (snd kv)).

Definition handler_warning : string :=
  "  ⚠ Handler contains " ++ dquote ++ "vercel/path0" ++ dquote
  ++ " — common ancestor likely dropped to /".

(** The body of [if (fs.existsSync(vcConfigPath)) { ... }]. *)
Definition describe (funcNode : node) : io unit :=
  if existsSync funcNode ".vc-config.json" then
    vcConfig <- lift (readJson funcNode ".vc-config.json") ;;
    handler <- lift (get_prop vcConfig "handler") ;;
    handler_text <- lift (to_string handler) ;;
    log ("  Handler: " ++ handler_text) ;;
    runtime <- lift (get_prop vcConfig "runtime") ;;
    runtime_text <- lift (to_string runtime) ;;
    log ("  Runtime: " ++ runtime_text) ;;
    marked <- lift (js_includes handler "vercel/path0") ;;
    if marked : bool then log handler_warning else ret tt
  else ret tt.

(** The part of the loop body that follows the inventory. *)
Definition render (files : list file_entry) : io unit :=
  log ("  Total files: " ++ dec (N.of_nat (List.length files))) ;;
  log ("  Total size: " ++ formatSize (totalSize files)) ;;
  log (nl ++ "  Top-level directories:") ;;
  for_each (sorted files) (fun kv => log (row kv)) ;;
  if negb (Nat.eqb (List.length (suspiciousDirs files)) 0) then
    log (nl ++ "  ⚠ SYSTEM DIRECTORIES DETECTED IN BUNDLE:") ;;
    for_each (suspiciousDirs files) (fun kv => log (row kv)) ;;
    log (nl ++ "  This confirms the NFT tracing bug — system files are being bundled.") ;;
    log "  See: https://github.com/sveltejs/kit/issues/13764"
  else
    log (nl ++ "  ✓ No system directories detected in bundle.").

(** One iteration of [for (const funcDir of funcDirs)]. *)
Definition report (outputDir : path) (funcDir : located) : io unit :=
  let funcName := path_relative outputDir (fst funcDir) in
  log (nl ++ "Function: " ++ funcName) ;;
  log (repeat_str "-" 50) ;;
  describe (snd funcDir) ;;
  files <- lift (walkFiles (fst funcDir) (snd funcDir) (fst funcDir)) ;;
  render files.

(** ** The script *)

(** What the run reads from its environment: [process.cwd()], and the tree at
    [.vercel/output/functions] below it, [None] when [fs.existsSync] finds
    nothing there. *)
Record world : Type := { cwd : path; functions : option node }.

Definition rule : string := "========================================".

Definition main (w : world) : io unit :=
  let appDir := cwd w in
  let outputDir := path_join appDir [".vercel"; "output"; "functions"] in
  log (nl ++ rule) ;;
  log "  NFT Bundle Analysis (post-build)" ;;
  log (rule ++ nl) ;;
  match functions w with
  | None =>
      log "No .vercel/output/functions/ directory found. Skipping analysis." ;;
      exit 0
  | Some root =>
      funcDirs <- lift (findFuncDirs outputDir root) ;;
      (if Nat.eqb (List.length funcDirs) 0 then
         log "No .func directories found in output." ;;
         exit 0
       else ret tt) ;;
      for_each funcDirs (report outputDir) ;;
      log (nl ++ rule ++ nl)
  end.

(** * Vocabulary of the properties *)

(** [n] tenths is a value with one decimal place closest to [num / den]. *)
Definition nearest_tenth (n num den : N) : Prop :=
  forall m : Z,
    (Z.abs (Z.of_N n * Z.of_N den - 10 * Z.of_N num)
     <= Z.abs (m * Z.of_N den - 10 * Z.of_N num))%Z.

(** [n] tenths printed with one decimal place. *)
Definition one_decimal (n : N) : string :=
  dec (n / 10) ++ "." ++ dec (n mod 10).

(** [ci_prefix p s]: [s] starts with [p] when the case of letters is
    ignored. *)
Inductive ci_prefix : string -> string -> Prop :=
| ci_prefix_done : forall s, ci_prefix EmptyString s
| ci_prefix_step : forall a b p s,
    lower_ascii a = lower_ascii b ->
    ci_prefix p s ->
    ci_prefix (String a p) (String b s).

(** Induction on trees, with the property available for every entry of a
    listed directory. *)
Definition node_induction (P : node -> Prop)
  (HFile : forall st c, P (File st c))
  (HUnlisted : P (Dir None))
  (HDir : forall es, Forall (fun kv => P (snd kv)) es -> P (Dir (Some es)))
  : forall n, P n :=
  fix go (n : node) : P n :=
    match n with
    | File st c => HFile st c
    | Dir None => HUnlisted
    | Dir (Some es) =>
        HDir es
             ((fix all (l : list (string * node))
                 : Forall (fun kv => P (snd kv)) l :=
                 match l with
                 | [] => Forall_nil _
                 | kv :: l' => Forall_cons kv (go (snd kv)) (all l')
                 end) es)
    end.

(** The loop of [findFuncDirs], named. *)
Definition find_loop (dir : path)
  : list (string * node) -> list located -> result (list located) :=
  fix loop (es : list (string * node)) (results : list located) :=
    match es with
    | [] => Ok results
    | (name, entry) :: es' =>
        let full := path_join dir [name] in
        if isDirectory entry then
          if endsWith name ".func" then
            loop es' (results ++ [(full, entry)])%list
          else
            match findFuncDirs full entry with
            | Ok sub => loop es' (results ++ sub)%list
            | Throw e => Throw e
            end
        else loop es' results
    end.

(** [q] lies strictly below [p]. *)
Definition descendant (p q : path) : Prop :=
  exists r, r <> [] /\ q = (p ++ r)%list.

(** [unit_at dir n u]: below the directory [n] at path [dir], [u] is a
    directory whose name ends in ".func", reached through directories whose
    names do not. *)
Inductive unit_at : path -> node -> located -> Prop :=
| unit_here : forall dir es name e,
    In (name, e) es ->
    isDirectory e = true ->
    endsWith name ".func" = true ->
    unit_at dir (Dir (Some es)) ((dir ++ [name])%list, e)
| unit_below : forall dir es name e u,
    In (name, e) es ->
    isDirectory e = true ->
    endsWith name ".func" = false ->
    unit_at (dir ++ [name])%list e u ->
    unit_at dir (Dir (Some es)) u.

(** Every directory outside the units can be listed. *)
Fixpoint listable (n : node) : bool :=
  match n with
  | Dir (Some es) =>
      (fix all (l : list (string * node)) : bool :=
         match l with
         | [] => true
         | (name, e) :: l' =>
             (if isDirectory e && negb (endsWith name ".func")
              then listable e else true) && all l'
         end) es
  | _ => false
  end.

(** What one entry of a listing contributes to the units of the listing. *)
Definition contributes (dir : path) (kv : string * node) (u : located) : Prop :=
  isDirectory (snd kv) = true
  /\ ((endsWith (fst kv) ".func" = true
       /\ u = ((dir ++ [fst kv])%list, snd kv))
      \/ (endsWith (fst kv) ".func" = false
          /\ unit_at (dir ++ [fst kv])%list (snd kv) u)).

Definition located_ok (n : node) : Prop :=
  forall dir,
    listable n = true ->
    exists units,
      findFuncDirs dir n = Ok units /\ forall u, In u units <-> unit_at dir n u.


(** The loop of [walkFiles], named. *)
Definition walk_loop (dir base : path)
  : list (string * node) -> list file_entry -> result (list file_entry) :=
  fix loop (es : list (string * node)) (results : list file_entry) :=
    match es with
    | [] => Ok results
    | (name, entry) :: es' =>
        let full := path_join dir [name] in
        match entry with
        | Dir _ =>
            match walkFiles full entry base with
            | Ok sub => loop es' (results ++ sub)%list
            | Throw e => Throw e
            end
        | File st _ =>
            match statSync st with
            | Ok size =>
                loop es' (results ++ [{| fpath := path_relative base full;
                                         fsize := size |}])%list
            | Throw e => Throw e
            end
        end
    end.

(** The sums over the rows of a group table. *)
Definition sum_counts (rows : list (string * group)) : N :=
  fold_right (fun kv acc => count (snd kv) + acc) 0 rows.

Definition sum_sizes (rows : list (string * group)) : N :=
  fold_right (fun kv acc => size (snd kv) + acc) 0 rows.

(** A file whose grouping key does not name a property that [groups]
    inherits. *)
Definition tracked (f : file_entry) : bool := negb (in_prototype (topDir f)).

(** An entry name the file system can hold: not empty, no separator. *)
Fixpoint no_sep (s : string) : bool :=
  match s with
  | EmptyString => true
  | String a s' => negb (Ascii.eqb a sep) && no_sep s'
  end.

Definition entry_name (s : string) : bool :=
  negb (String.eqb s EmptyString) && no_sep s.

(** The order of the group table as the specification words it: larger
    groups first, groups of equal size by name. *)
Definition size_then_name (a b : string * group) : Prop :=
  size (snd b) < size (snd a)
  \/ (size (snd a) = size (snd b) /\ String.leb (fst a) (fst b) = true).

(** The order of the group table as the comparator gives it. *)
Definition size_desc (a b : string * group) : Prop :=
  size (snd b) <= size (snd a).

Definition has_size (s : N) (kv : string * group) : bool :=
  size (snd kv) =? s.

(** No own property of [groups] shadows an inherited one. *)
Definition unshadowed (o : jsobject) : Prop :=
  Forall (fun k => in_prototype k = false) (map fst o).

(** The inventory entries that stem from files below [rel], seen from the
    base directory. *)
Definition below (rel : list string) (f : file_entry) : Prop :=
  exists more, more <> [] /\ fpath f = join "/" (rel ++ more)%list.

(** An inventory entry stems from a top-level entry of the unit and is keyed
    by the name of that entry; when that entry is a file, the name is the
    whole path. *)
Definition keyed_by_top_level (es : list (string * node)) (f : file_entry)
  : Prop :=
  exists name e,
    In (name, e) es
    /\ topDir f = name
    /\ (isDirectory e = false -> fpath f = name).

(** The lines that open every run, and the two lines that open the block of
    a unit. *)
Definition banner : list string :=
  [nl ++ rule; "  NFT Bundle Analysis (post-build)"; rule ++ nl].

Definition header (outputDir : path) (funcDir : located) : list string :=
  [nl ++ "Function: " ++ path_relative outputDir (fst funcDir);
   repeat_str "-" 50].

Definition outputDir (w : world) : path :=
  path_join (cwd w) [".vercel"; "output"; "functions"].

(** The descriptor of the unit is there and is not JSON. *)
Definition malformed_descriptor (unit : node) : Prop :=
  existsSync unit ".vc-config.json" = true
  /\ readJson unit ".vc-config.json" = Throw SyntaxError.

(** Somewhere in the tree a directory cannot be listed or an entry cannot be
    examined. *)
Inductive inaccessible : node -> Prop :=
| inaccessible_dir : inaccessible (Dir None)
| inaccessible_file : forall c, inaccessible (File None c)
| inaccessible_below : forall es name e,
    In (name, e) es -> inaccessible e -> inaccessible (Dir (Some es)).

(** The lines of the units that a run reports in full. *)
Definition blocks (outputDir : path) (units : list located) : list string :=
  flat_map (fun u => fst (report outputDir u)) units.

Definition completes (outputDir : path) (u : located) : Prop :=
  snd (report outputDir u) = Normal tt.

(** A block was started for the unit of that name. *)
Definition reported (out : list string) (name : string) : Prop :=
  In (nl ++ "Function: " ++ name) out.

(** The keys in the order of their first appearance, the names that [groups]
    inherits left out. *)
Fixpoint first_seen (seen keys : list string) : list string :=
  match keys with
  | [] => seen
  | k :: keys' =>
      if existsb (String.eqb k) seen || in_prototype k
      then first_seen seen keys'
      else first_seen (seen ++ [k])%list keys'
  end.

(** * Sample trees *)

(** A regular file of the given size that holds no JSON. *)
Definition plain (size : N) : node := File (Some size) (Text None).

(** A unit with a file at its root and a directory named like a property
    that every object inherits. *)
Definition unit_prototype_name : node :=
  Dir (Some [ ("constructor", Dir (Some [("index.js", plain 5000)]));
              ("index.js", plain 100) ]).

(** A unit with a file at its root and one source directory. *)
Definition unit_root_file : node :=
  Dir (Some [ ("index.js", plain 100);
              ("src", Dir (Some [("app.js", plain 10)])) ]).

(** A unit with two directories of equal size, listed "b" before "a". *)
Definition unit_tie : node :=
  Dir (Some [ ("b", Dir (Some [("x.js", plain 7)]));
              ("a", Dir (Some [("y.js", plain 7)])) ]).

(** A unit with two directories of equal size whose names are array indices,
    listed in byte order: "10" before "9". *)
Definition unit_index_tie : node :=
  Dir (Some [ ("10", Dir (Some [("x.js", plain 7)]));
              ("9", Dir (Some [("y.js", plain 7)])) ]).

(** An output root with a unit that holds a nested "*.func" directory which
    cannot be listed, and a unit below a route directory. *)
Definition root_nested : node :=
  Dir (Some [ ("api", Dir (Some [("user.func", Dir (Some []))]));
              ("index.func", Dir (Some [("inner.func", Dir None)]));
              ("notes.txt", plain 12) ]).

(** A descriptor file with the given parse result. *)
Definition descriptor (parsed : option json) : node :=
  File (Some 64) (Text parsed).

Definition vc_config (handler runtime : string) : json :=
  JObj [("handler", JStr handler); ("runtime", JStr runtime)].

(** A unit whose descriptor is not JSON. *)
Definition unit_malformed : node :=
  Dir (Some [ (".vc-config.json", descriptor None);
              ("index.js", plain 100) ]).

(** A sound unit with sources only. *)
Definition unit_clean : node :=
  Dir (Some [ (".vc-config.json",
               descriptor (Some (vc_config "index.js" "nodejs22.x")));
              ("src", Dir (Some [("app.js", plain 10)])) ]).

(** A unit with a directory that cannot be listed. *)
Definition unit_partly_unreadable : node :=
  Dir (Some [ ("index.js", plain 100);
              ("secret", Dir None) ]).

(** A unit whose handler path shows the collapse, without system
    directories. *)
Definition unit_collapsed : node :=
  Dir (Some [ (".vc-config.json",
               descriptor
                 (Some (vc_config "vercel/path0/apps/web/index.js"
                                  "nodejs22.x")));
              ("src", Dir (Some [("app.js", plain 10)])) ]).

(** The same with a system directory swept in. *)
Definition unit_collapsed_usr : node :=
  Dir (Some [ (".vc-config.json",
               descriptor
                 (Some (vc_config "vercel/path0/apps/web/index.js"
                                  "nodejs22.x")));
              ("usr", Dir (Some [("lib.so", plain 2048)])) ]).

Definition world_malformed : world :=
  {| cwd := ["app"];
     functions := Some (Dir (Some [ ("a.func", unit_malformed);
                                    ("b.func", unit_clean) ])) |}.

Definition world_unreadable : world :=
  {| cwd := ["app"];
     functions := Some (Dir (Some [ ("a.func", unit_partly_unreadable);
                                    ("b.func", unit_clean) ])) |}.

Definition world_no_build : world :=
  {| cwd := ["app"]; functions := None |}.

Definition world_root_is_file : world :=
  {| cwd := ["app"]; functions := Some (plain 3) |}.

(** * Vocabulary of the further properties *)

(** Every directory of the tree can be listed and every other entry can be
    examined. *)
Fixpoint accessible (n : node) : bool :=
  match n with
  | File (Some _) _ => true
  | File None _ => false
  | Dir None => false
  | Dir (Some es) =>
      (fix all (l : list (string * node)) : bool :=
         match l with
         | [] => true
         | (_, e) :: l' => accessible e && all l'
         end) es
  end.

(** The files of a tree, depth first in listing order: one entry for each
    entry that is not a directory, under the names that lead to it from the
    directory [rel] names below the base. *)
Fixpoint inventory (rel : list string) (n : node) : list file_entry :=
  match n with
  | Dir (Some es) =>
      (fix each (l : list (string * node)) : list file_entry :=
         match l with
         | [] => []
         | (name, e) :: l' =>
             (match e with
              | Dir _ => inventory (rel ++ [name])%list e
              | File (Some size) _ =>
                  [{| fpath := join "/" (rel ++ [name])%list; fsize := size |}]
              | File None _ => []
              end ++ each l')%list
         end) es
  | _ => []
  end.

(** The same loop, named. *)
Definition inventory_entries (rel : list string)
  : list (string * node) -> list file_entry :=
  fix each (l : list (string * node)) : list file_entry :=
    match l with
    | [] => []
    | (name, e) :: l' =>
        (match e with
         | Dir _ => inventory (rel ++ [name])%list e
         | File (Some size) _ =>
             [{| fpath := join "/" (rel ++ [name])%list; fsize := size |}]
         | File None _ => []
         end ++ each l')%list
    end.

Definition accessible_entries : list (string * node) -> bool :=
  fix all (l : list (string * node)) : bool :=
    match l with
    | [] => true
    | (_, e) :: l' => accessible e && all l'
    end.

(** The number of entries that are not directories, and their bytes. *)
Fixpoint file_count (n : node) : N :=
  match n with
  | File _ _ => 1
  | Dir None => 0
  | Dir (Some es) =>
      (fix sum (l : list (string * node)) : N :=
         match l with
         | [] => 0
         | (_, e) :: l' => file_count e + sum l'
         end) es
  end.

Fixpoint byte_count (n : node) : N :=
  match n with
  | File (Some size) _ => size
  | File None _ => 0
  | Dir None => 0
  | Dir (Some es) =>
      (fix sum (l : list (string * node)) : N :=
         match l with
         | [] => 0
         | (_, e) :: l' => byte_count e + sum l'
         end) es
  end.

(** The inventory entries with a given grouping key, counted and summed. *)
Definition has_key (k : string) (f : file_entry) : bool :=
  String.eqb (topDir f) k.

Definition tally (k : string) (files : list file_entry) : group :=
  {| count := N.of_nat (List.length (filter (has_key k) files));
     size := totalSize (filter (has_key k) files) |}.

Definition add_group (g t : group) : group :=
  {| count := count g + count t; size := size g + size t |}.

(** The loop of [listable], named. *)
Definition listable_entries : list (string * node) -> bool :=
  fix all (l : list (string * node)) : bool :=
    match l with
    | [] => true
    | (name, e) :: l' =>
        (if isDirectory e && negb (endsWith name ".func")
         then listable e else true) && all l'
    end.

(** The name under which a unit is shown. *)
Definition funcName (out : path) (u : located) : string :=
  path_relative out (fst u).

(** An output root with a sound unit beside a route directory that cannot be
    listed. *)
Definition world_unlistable : world :=
  {| cwd := ["app"];
     functions := Some (Dir (Some [ ("a.func", unit_clean);
                                    ("api", Dir None) ])) |}.

(** An output root with static files and no unit. *)
Definition world_no_units : world :=
  {| cwd := ["app"];
     functions :=
       Some (Dir (Some [ ("static", Dir (Some [("robots.txt", plain 24)])) ])) |}.

(** An output root with two sound units, one of them with a system
    directory. *)
Definition world_sound : world :=
  {| cwd := ["app"];
     functions := Some (Dir (Some [ ("a.func", unit_collapsed_usr);
                                    ("b.func", unit_clean) ])) |}.

(** A unit without a descriptor. *)
Definition unit_bare : node :=
  Dir (Some [ ("index.js", plain 100) ]).

(** A unit whose descriptor is an object without a handler. *)
Definition unit_no_handler : node :=
  Dir (Some [ (".vc-config.json",
               descriptor (Some (JObj [("runtime", JStr "nodejs22.x")])));
              ("index.js", plain 100) ]).

(** The line that closes a complete run. *)
Definition closing : string := nl ++ rule ++ nl.

(** The lines of the descriptor of a unit. *)
Definition handler_line (text : string) : string := "  Handler: " ++ text.
Definition runtime_line (text : string) : string := "  Runtime: " ++ text.

(** A unit whose descriptor is the JSON text [null]. *)
Definition unit_null_descriptor : node :=
  Dir (Some [ (".vc-config.json", descriptor (Some JNull));
              ("index.js", plain 100) ]).

(** The parts of the lines that follow the inventory. *)
Definition totals (files : list file_entry) : list string :=
  ["  Total files: " ++ dec (N.of_nat (List.length files));
   "  Total size: " ++ formatSize (totalSize files);
   nl ++ "  Top-level directories:"].

Definition confirmation : list string :=
  [nl ++ "  ✓ No system directories detected in bundle."].

Definition alarm (flagged : list (string * group)) : list string :=
  ([nl ++ "  ⚠ SYSTEM DIRECTORIES DETECTED IN BUNDLE:"]%string
   ++ map row flagged
   ++ [nl ++ "  This confirms the NFT tracing bug — system files are being bundled.";
       "  See: https://github.com/sveltejs/kit/issues/13764"]%string)%list.

(** A unit of project files only, one of them a root file whose name starts
    like a system directory. *)
Definition unit_options_file : node :=
  Dir (Some [ ("index.js", plain 100);
              ("options.json", plain 20) ]).

(** A unit that holds directories but no file. *)
Definition unit_hollow : node :=
  Dir (Some [ ("assets", Dir (Some [("img", Dir (Some []))])) ]).

(** A unit in which the name of the descriptor is taken by a directory. *)
Definition unit_descriptor_is_directory : node :=
  Dir (Some [ (".vc-config.json", Dir (Some []));
              ("index.js", plain 100) ]).

(** How a run can end without a failure of its own making. *)
Definition ends_well {A : Type} (c : completion A) : Prop :=
  match c with
  | Normal _ => True
  | Exit code => code = 0
  | Uncaught _ => False
  end.

(** * Properties *)

(** ** String primitives *)

Lemma startsWith_spec :
  forall p s, startsWith s p = true <-> exists rest, s = p ++ rest.
Proof.
  unfold startsWith.
  induction p as [| a p IH]; intros s.
  - split; [intros _; now exists s | intros _; now destruct s].
  - destruct s as [| b s]; simpl.
    + split; [discriminate | intros (rest & H); discriminate].
    + destruct (ascii_dec a b) as [-> | Hne].
      * rewrite IH. split; intros (rest & H); exists rest.
        -- now rewrite H.
        -- simpl in H. now injection H.
      * split; [discriminate |].
        intros (rest & H). simpl in H. injection H as H _. congruence.
Qed.

Lemma endsWith_spec :
  forall s p, endsWith s p = true <-> exists front, s = front ++ p.
Proof.
  induction s as [| c s IH]; intros p.
  - destruct p as [| a p]; simpl.
    + split; [intros _; now exists EmptyString | reflexivity].
    + split; [discriminate |].
      intros ([| c front] & H); discriminate H.
  - cbn [endsWith].
    destruct (String.eqb_spec (String c s) p) as [<- | Hne].
    + split; [intros _; now exists EmptyString | reflexivity].
    + rewrite IH. split.
      * intros (front & ->). now exists (String c front).
      * intros ([| c' front] & H); simpl in H; [congruence |].
        injection H as _ ->. now exists front.
Qed.

Lemma includes_spec :
  forall s p,
    includes s p = true <-> exists front rest, s = front ++ p ++ rest.
Proof.
  assert (Hhere : forall s p rest, s = p ++ rest -> String.prefix p s = true)
    by (intros s p rest H; apply (startsWith_spec p s); now exists rest).
  induction s as [| c s IH]; intros p; cbn [includes].
  - destruct (String.prefix p EmptyString) eqn:Hp.
    + split; [intros _ | reflexivity].
      apply (startsWith_spec p EmptyString) in Hp as (rest & Hp).
      now exists EmptyString, rest.
    + split; [discriminate |].
      intros ([| c front] & rest & H); simpl in H; [| discriminate].
      rewrite (Hhere _ _ _ H) in Hp. discriminate.
  - destruct (String.prefix p (String c s)) eqn:Hp.
    + split; [intros _ | reflexivity].
      apply (startsWith_spec p (String c s)) in Hp as (rest & Hp).
      now exists EmptyString, rest.
    + rewrite IH. split.
      * intros (front & rest & ->). now exists (String c front), rest.
      * intros ([| c' front] & rest & H); simpl in H.
        -- rewrite (Hhere _ _ _ H) in Hp. discriminate.
        -- injection H as _ ->. now exists front, rest.
Qed.

(** ** Size formatting *)

Section Rounding.
Variables num den : N.
Hypothesis den_pos : 0 < den.

Lemma rounding_bounds :
  2 * den * tenths num den <= 20 * num + den
  /\ 20 * num + den < 2 * den * (tenths num den + 1).
Proof.
  unfold tenths.
  assert (Hd : 2 * den <> 0) by lia.
  pose proof (N.div_mod (20 * num + den) (2 * den) Hd) as Hdiv.
  pose proof (N.mod_lt (20 * num + den) (2 * den) Hd) as Hmod.
  set (q := (20 * num + den) / (2 * den)) in *.
  set (r := (20 * num + den) mod (2 * den)) in *.
  nia.
Qed.

Lemma rounding_nearest : nearest_tenth (tenths num den) num den.
Proof.
  pose proof rounding_bounds as [Hlo Hhi].
  set (n := tenths num den) in *.
  intros m.
  destruct (Z.lt_trichotomy m (Z.of_N n)) as [Hm | [Hm | Hm]].
  - assert (m * Z.of_N den <= (Z.of_N n - 1) * Z.of_N den)%Z by nia. lia.
  - subst m. lia.
  - assert ((Z.of_N n + 1) * Z.of_N den <= m * Z.of_N den)%Z by nia. lia.
Qed.

Lemma toFixed1_one_decimal : toFixed1 num den = one_decimal (tenths num den).
Proof. reflexivity. Qed.
End Rounding.

(** C8: below 1024 the formatter prints the byte count followed by " B"; from
    1024 up to 1048575 it prints kibibytes, and from 1048576 on mebibytes,
    each as the closest value with one decimal place; 512, 2048 and 5242880
    give "512 B", "2.0 KB" and "5.0 MB". *)
Theorem formatSize_thresholds :
  forall bytes : N,
    (bytes < 1024 -> formatSize bytes = dec bytes ++ " B")
    /\ (1024 <= bytes -> bytes < 1048576 ->
        exists n, nearest_tenth n bytes 1024
                  /\ formatSize bytes = one_decimal n ++ " KB")
    /\ (1048576 <= bytes ->
        exists n, nearest_tenth n bytes 1048576
                  /\ formatSize bytes = one_decimal n ++ " MB")
    /\ formatSize 512 = "512 B"
    /\ formatSize 2048 = "2.0 KB"
    /\ formatSize 5242880 = "5.0 MB".
Proof.
  intros bytes. unfold formatSize.
  change (1024 * 1024) with 1048576.
  repeat split; try reflexivity.
  - intros Hlt.
    destruct (N.leb_spec 1048576 bytes); [lia |].
    destruct (N.leb_spec 1024 bytes); [lia | reflexivity].
  - intros Hge Hlt.
    destruct (N.leb_spec 1048576 bytes); [lia |].
    destruct (N.leb_spec 1024 bytes); [| lia].
    eexists. split; [apply rounding_nearest; lia |].
    now rewrite toFixed1_one_decimal.
  - intros Hge.
    destruct (N.leb_spec 1048576 bytes); [| lia].
    eexists. split; [apply rounding_nearest; lia |].
    now rewrite toFixed1_one_decimal.
Qed.

Lemma formatSize_thresholds_witness :
  formatSize 1023 = "1023 B"
  /\ (exists n, nearest_tenth n 1536 1024 /\ formatSize 1536 = one_decimal n ++ " KB")
  /\ (exists n, nearest_tenth n 1572864 1048576
                /\ formatSize 1572864 = one_decimal n ++ " MB").
Proof.
  split; [| split].
  - apply (proj1 (formatSize_thresholds 1023)). reflexivity.
  - apply (proj1 (proj2 (formatSize_thresholds 1536))).
    + discriminate.
    + reflexivity.
  - apply (proj1 (proj2 (proj2 (formatSize_thresholds 1572864)))).
    discriminate.
Defined.

(** ** Suspicion detection *)

Lemma lower_ascii_idem : forall c, lower_ascii (lower_ascii c) = lower_ascii c.
Proof.
  intros [[] [] [] [] [] [] [] []]; reflexivity.
Qed.

Section Patterns.
Variable patterns : list string.
(** The configured patterns are written in lower case. *)
Hypothesis patterns_lower : Forall (fun p => toLowerCase p = p) patterns.

Lemma startsWith_lower_ci :
  forall p s, toLowerCase p = p ->
              (startsWith (toLowerCase s) p = true <-> ci_prefix p s).
Proof.
  unfold startsWith.
  induction p as [| a p IH]; intros s Hp.
  - split; [intros _; apply ci_prefix_done | intros _; destruct s; reflexivity].
  - simpl in Hp. injection Hp as Ha Hp'.
    destruct s as [| b s]; simpl.
    + split; [discriminate | inversion 1].
    + destruct (ascii_dec a (lower_ascii b)) as [Heq | Hne].
      * rewrite IH by assumption.
        split.
        -- intros H. constructor; [congruence | assumption].
        -- inversion 1; assumption.
      * split; [discriminate |].
        inversion 1; subst. congruence.
Qed.

Lemma suspicious_with_ci :
  forall dir,
    suspicious_with patterns dir = true
    <-> exists p, In p patterns /\ ci_prefix p dir.
Proof.
  intros dir. unfold suspicious_with.
  rewrite existsb_exists.
  rewrite Forall_forall in patterns_lower.
  split; intros (p & Hin & H); exists p; split; trivial;
    apply (startsWith_lower_ci p dir (patterns_lower p Hin)); assumption.
Qed.
End Patterns.

Lemma systemDirPatterns_lower :
  Forall (fun p => toLowerCase p = p) systemDirPatterns.
Proof. repeat constructor. Qed.

(** C2: a group is flagged exactly when its key starts, ignoring case, with
    one of the patterns of [systemDirPatterns]; the flagged rows of a report
    are the rows of the table with such a key; "node22" and "usr" are
    flagged, "app" and "lib" are not. *)
Theorem suspicious_iff_ci_prefix :
  (forall dir,
      suspicious dir = true
      <-> exists p, In p systemDirPatterns /\ ci_prefix p dir)
  /\ (forall files kv,
         In kv (suspiciousDirs files)
         <-> In kv (sorted files)
             /\ exists p, In p systemDirPatterns /\ ci_prefix p (fst kv))
  /\ suspicious "node22" = true
  /\ suspicious "usr" = true
  /\ suspicious "app" = false
  /\ suspicious "lib" = false.
Proof.
  assert (H : forall dir,
             suspicious dir = true
             <-> exists p, In p systemDirPatterns /\ ci_prefix p dir)
    by (intros dir; apply suspicious_with_ci, systemDirPatterns_lower).
  split; [exact H |].
  split; [| repeat split].
  intros files kv. unfold suspiciousDirs.
  rewrite filter_In, H. reflexivity.
Qed.

(** ** ArtifactLocator *)

Lemma findFuncDirs_dir :
  forall dir es, findFuncDirs dir (Dir (Some es)) = find_loop dir es [].
Proof. reflexivity. Qed.

Lemma unit_at_contributes :
  forall dir es u,
    unit_at dir (Dir (Some es)) u
    <-> exists kv, In kv es /\ contributes dir kv u.
Proof.
  intros dir es u. split.
  - inversion 1; subst.
    + exists (name, e). unfold contributes. simpl. auto.
    + exists (name, e). unfold contributes. simpl. auto.
  - intros ([name e] & Hin & Hdir & [[Hs ->] | [Hs Hu]]); simpl in *.
    + now apply unit_here.
    + now apply unit_below with name e.
Qed.

Lemma find_loop_cons :
  forall dir name entry es results,
    find_loop dir ((name, entry) :: es) results =
    if isDirectory entry then
      if endsWith name ".func" then
        find_loop dir es (results ++ [((dir ++ [name])%list, entry)])%list
      else
        match findFuncDirs (dir ++ [name])%list entry with
        | Ok sub => find_loop dir es (results ++ sub)%list
        | Throw e => Throw e
        end
    else find_loop dir es results.
Proof. reflexivity. Qed.

Lemma find_loop_units :
  forall dir es,
    Forall (fun kv => located_ok (snd kv)) es ->
    listable (Dir (Some es)) = true ->
    forall results,
    exists units,
      find_loop dir es results = Ok (results ++ units)%list
      /\ forall u, In u units <-> exists kv, In kv es /\ contributes dir kv u.
Proof.
  intros dir es IH.
  induction IH as [| [name e] es He _ IHes]; intros Hl results.
  - exists []. simpl. rewrite app_nil_r. split; [reflexivity |].
    intros u. split; [contradiction | intros (kv & [] & _)].
  - simpl in Hl. apply andb_prop in Hl as [Hhere Hrest].
    specialize (IHes Hrest).
    rewrite find_loop_cons.
    destruct (isDirectory e) eqn:Hd; simpl in Hhere.
    + destruct (endsWith name ".func") eqn:Hs; simpl in Hhere.
      * destruct (IHes (results ++ [((dir ++ [name])%list, e)])%list)
          as (units & Heq & Hin).
        exists (((dir ++ [name])%list, e) :: units).
        rewrite Heq, <- app_assoc. split; [reflexivity |].
        intros u. simpl. rewrite Hin. split.
        -- intros [<- | (kv & Hkv & Hc)].
           ++ exists (name, e). split; [now left |].
              unfold contributes. simpl. auto.
           ++ exists kv. auto.
        -- intros (kv & [<- | Hkv] & Hc).
           ++ destruct Hc as [_ [[_ ->] | [Hs' _]]]; simpl in *;
                [now left | congruence].
           ++ right. exists kv. auto.
      * destruct (He (dir ++ [name])%list Hhere) as (sub & Hsub & Hin_sub).
        simpl in Hsub, Hin_sub. rewrite Hsub.
        destruct (IHes (results ++ sub)%list) as (units & Heq & Hin).
        exists (sub ++ units)%list.
        rewrite Heq, <- app_assoc. split; [reflexivity |].
        intros u. rewrite in_app_iff, Hin, Hin_sub. split.
        -- intros [Hu | (kv & Hkv & Hc)].
           ++ exists (name, e). split; [now left |].
              unfold contributes. simpl. auto.
           ++ exists kv. simpl. auto.
        -- intros (kv & [<- | Hkv] & Hc).
           ++ destruct Hc as [_ [[Hs' _] | [_ Hu]]]; simpl in *;
                [congruence | now left].
           ++ right. exists kv. auto.
    + destruct (IHes results) as (units & Heq & Hin).
      exists units. split; [assumption |].
      intros u. rewrite Hin. split.
      * intros (kv & Hkv & Hc). exists kv. simpl. auto.
      * intros (kv & [<- | Hkv] & Hc).
        -- destruct Hc as [Hd' _]. simpl in Hd'. congruence.
        -- exists kv. auto.
Qed.

Lemma findFuncDirs_located : forall n, located_ok n.
Proof.
  induction n as [st c | | es IH] using node_induction;
    intros dir Hl; try discriminate.
  rewrite findFuncDirs_dir.
  destruct (find_loop_units dir es IH Hl []) as (units & Heq & Hin).
  exists units. split; [exact Heq |].
  intros u. rewrite Hin. symmetry. apply unit_at_contributes.
Qed.

(** The path of a unit: names that do not end in ".func", then one that does. *)
Lemma unit_at_shape :
  forall dir n u,
    unit_at dir n u ->
    exists rest name,
      fst u = (dir ++ rest ++ [name])%list
      /\ endsWith name ".func" = true
      /\ Forall (fun s => endsWith s ".func" = false) rest.
Proof.
  induction 1 as [dir es name e Hin Hd Hs | dir es name e u Hin Hd Hs Hu IH].
  - exists [], name. simpl. auto.
  - destruct IH as (rest & name' & Heq & Hs' & Hrest).
    exists (name :: rest), name'. rewrite Heq, <- app_assoc.
    simpl. auto.
Qed.

Lemma units_not_nested :
  forall dir n u v,
    unit_at dir n u -> unit_at dir n v -> ~ descendant (fst u) (fst v).
Proof.
  intros dir n u v Hu Hv (r & Hr & Heq).
  apply unit_at_shape in Hu as (ru & nu & Hpu & Hsu & _).
  apply unit_at_shape in Hv as (rv & nv & Hpv & _ & Hrv).
  rewrite Hpu, Hpv, <- !app_assoc in Heq.
  apply app_inv_head in Heq.
  destruct (exists_last Hr) as (r' & x & ->).
  change (rv ++ [nv] = ru ++ (nu :: r') ++ [x])%list in Heq.
  rewrite !app_assoc in Heq.
  apply app_inj_tail in Heq as [Heq _].
  rewrite Forall_forall in Hrv.
  assert (Hin : In nu rv)
    by (rewrite Heq; apply in_elt).
  specialize (Hrv nu Hin). simpl in Hrv. congruence.
Qed.

(** C6: when the directories outside the units can be listed, the locator
    returns exactly the directories named "*.func" that are reached through
    directories not so named, whatever the units themselves hold, and no
    returned unit lies below another. *)
Theorem findFuncDirs_units :
  forall dir root,
    listable root = true ->
    exists units,
      findFuncDirs dir root = Ok units
      /\ (forall u, In u units <-> unit_at dir root u)
      /\ (forall u v, In u units -> In v units -> ~ descendant (fst u) (fst v)).
Proof.
  intros dir root Hl.
  destruct (findFuncDirs_located root dir Hl) as (units & Heq & Hin).
  exists units. repeat split; try apply Hin; trivial.
  intros u v Hu Hv. apply Hin in Hu, Hv.
  now apply units_not_nested with dir root.
Qed.

Lemma findFuncDirs_units_witness :
  exists units,
    findFuncDirs ["out"] root_nested = Ok units
    /\ (forall u, In u units <-> unit_at ["out"] root_nested u)
    /\ (forall u v, In u units -> In v units -> ~ descendant (fst u) (fst v)).
Proof.
  apply findFuncDirs_units. reflexivity.
Defined.

(** ** The sort *)

Section Sort.
Context {A : Type}.
Variable cmp : A -> A -> Z.

Lemma insert_perm : forall x l, Permutation (x :: l) (insert cmp x l).
Proof.
  intros x l. induction l as [| y l IH]; simpl.
  - apply Permutation_refl.
  - destruct (cmp x y <=? 0)%Z.
    + apply Permutation_refl.
    + eapply perm_trans; [apply perm_swap |].
      now apply perm_skip.
Qed.

Lemma array_sort_perm : forall l, Permutation l (array_sort cmp l).
Proof.
  induction l as [| x l IH]; simpl.
  - constructor.
  - eapply perm_trans; [apply perm_skip, IH | apply insert_perm].
Qed.

(** Elements that the comparator puts level keep their order. *)
Lemma insert_filter :
  forall (keep : A -> bool),
    (forall x y, keep x = true -> keep y = true -> (cmp x y <= 0)%Z) ->
    forall x l,
      filter keep (insert cmp x l) = filter keep (x :: l).
Proof.
  intros keep Hlevel x l. induction l as [| y l IH].
  - reflexivity.
  - simpl insert. destruct (Z.leb_spec (cmp x y) 0) as [Hle | Hgt].
    + reflexivity.
    + simpl in *. rewrite IH.
      destruct (keep x) eqn:Hx, (keep y) eqn:Hy; trivial.
      specialize (Hlevel x y Hx Hy). lia.
Qed.

Lemma array_sort_filter :
  forall (keep : A -> bool),
    (forall x y, keep x = true -> keep y = true -> (cmp x y <= 0)%Z) ->
    forall l, filter keep (array_sort cmp l) = filter keep l.
Proof.
  intros keep Hlevel. induction l as [| x l IH]; simpl.
  - reflexivity.
  - rewrite insert_filter by assumption. simpl. now rewrite IH.
Qed.
End Sort.

Lemma insert_size_desc :
  forall x l,
    StronglySorted size_desc l ->
    StronglySorted size_desc (insert by_size_desc x l).
Proof.
  intros x l Hl. induction Hl as [| y l Hl IH Hy]; simpl.
  - repeat constructor.
  - unfold by_size_desc at 1.
    destruct (Z.leb_spec (Z.of_N (size (snd y)) - Z.of_N (size (snd x))) 0)
      as [Hle | Hgt].
    + constructor; [now constructor |].
      constructor; [unfold size_desc; lia |].
      rewrite Forall_forall in *. intros z Hz.
      specialize (Hy z Hz). unfold size_desc in *. lia.
    + constructor; [assumption |].
      rewrite Forall_forall in *. intros z Hz.
      apply (Permutation_in _ (Permutation_sym (insert_perm by_size_desc x l)))
        in Hz.
      destruct Hz as [<- | Hz]; [unfold size_desc; lia | now apply Hy].
Qed.

Lemma array_sort_size_desc :
  forall l, StronglySorted size_desc (array_sort by_size_desc l).
Proof.
  induction l as [| x l IH]; simpl.
  - constructor.
  - now apply insert_size_desc.
Qed.

(** ** [Object.entries] *)

Lemma filter_split_perm :
  forall (A : Type) (keep : A -> bool) (l : list A),
    Permutation l (filter keep l ++ filter (fun x => negb (keep x)) l).
Proof.
  intros A keep l. induction l as [| x l IH]; simpl.
  - constructor.
  - destruct (keep x); simpl.
    + now constructor.
    + now apply Permutation_cons_app.
Qed.

Lemma entries_perm : forall o, Permutation o (entries o).
Proof.
  intros o. unfold entries.
  eapply perm_trans; [apply (filter_split_perm _ is_index) |].
  apply Permutation_app_tail, array_sort_perm.
Qed.

Lemma sorted_perm : forall files, Permutation (groups files) (sorted files).
Proof.
  intros files. unfold sorted.
  eapply perm_trans; [apply entries_perm | apply array_sort_perm].
Qed.

Lemma sum_counts_perm :
  forall l l', Permutation l l' -> sum_counts l = sum_counts l'.
Proof.
  induction 1; simpl; lia.
Qed.

Lemma sum_sizes_perm :
  forall l l', Permutation l l' -> sum_sizes l = sum_sizes l'.
Proof.
  induction 1; simpl; lia.
Qed.

(** ** The grouping loop *)

Lemma update_absent :
  forall o k f, lookup k o = None -> update o k f = o.
Proof.
  induction o as [| [k' g] o IH]; intros k f H; simpl in *.
  - reflexivity.
  - destruct (String.eqb k k'); [discriminate | now rewrite IH].
Qed.

Lemma lookup_update :
  forall o k f g, lookup k o = Some g -> lookup k (update o k f) = Some (f g).
Proof.
  induction o as [| [k' g'] o IH]; intros k f g H; simpl in *.
  - discriminate.
  - destruct (String.eqb k k') eqn:E; simpl; rewrite E.
    + congruence.
    + now apply IH.
Qed.

Lemma update_keys :
  forall o k f, map fst (update o k f) = map fst o.
Proof.
  induction o as [| [k' g] o IH]; intros k f; simpl.
  - reflexivity.
  - destruct (String.eqb k k'); simpl; [| rewrite IH]; reflexivity.
Qed.

Lemma sum_counts_update :
  forall o k f g,
    lookup k o = Some g ->
    sum_counts (update o k f) + count g = sum_counts o + count (f g).
Proof.
  induction o as [| [k' g'] o IH]; intros k f g H; simpl in *.
  - discriminate.
  - destruct (String.eqb k k'); simpl.
    + injection H as ->. lia.
    + specialize (IH k f g H). lia.
Qed.

Lemma sum_sizes_update :
  forall o k f g,
    lookup k o = Some g ->
    sum_sizes (update o k f) + size g = sum_sizes o + size (f g).
Proof.
  induction o as [| [k' g'] o IH]; intros k f g H; simpl in *.
  - discriminate.
  - destruct (String.eqb k k'); simpl.
    + injection H as ->. lia.
    + specialize (IH k f g H). lia.
Qed.

Lemma lookup_define_own :
  forall o k g, lookup k o = None -> lookup k (define_own o k g) = Some g.
Proof.
  unfold define_own.
  induction o as [| [k' g'] o IH]; intros k g H; simpl in *.
  - now rewrite String.eqb_refl.
  - destruct (String.eqb k k'); [discriminate | now apply IH].
Qed.

Lemma sum_counts_define_own :
  forall o k g, sum_counts (define_own o k g) = sum_counts o + count g.
Proof.
  unfold define_own. induction o as [| kv o IH]; intros; simpl.
  - lia.
  - rewrite IH. lia.
Qed.

Lemma sum_sizes_define_own :
  forall o k g, sum_sizes (define_own o k g) = sum_sizes o + size g.
Proof.
  unfold define_own. induction o as [| kv o IH]; intros; simpl.
  - lia.
  - rewrite IH. lia.
Qed.

Lemma lookup_in_keys :
  forall (o : jsobject) k g, lookup k o = Some g -> In k (map fst o).
Proof.
  induction o as [| [k' g'] o IH]; intros k g H; simpl in *.
  - discriminate.
  - destruct (String.eqb_spec k k'); [now left | right; eauto].
Qed.

Lemma group_step_sums :
  forall o f,
    unshadowed o ->
    unshadowed (group_step o f)
    /\ sum_counts (group_step o f)
       = sum_counts o + (if tracked f then 1 else 0)
    /\ sum_sizes (group_step o f)
       = sum_sizes o + (if tracked f then fsize f else 0).
Proof.
  intros o f Ho. unfold group_step, get, tracked, unshadowed.
  destruct (lookup (topDir f) o) as [g |] eqn:Hl; simpl.
  - assert (Hk : in_prototype (topDir f) = false).
    { unfold unshadowed in Ho. rewrite Forall_forall in Ho.
      eapply Ho, lookup_in_keys, Hl. }
    rewrite Hk. simpl.
    rewrite !update_keys. split; [assumption |].
    pose proof (lookup_update o (topDir f)
                  (fun g => {| count := count g + 1; size := size g |}) g Hl)
      as Hl'.
    split.
    + pose proof (sum_counts_update _ _
                    (fun g => {| count := count g; size := size g + fsize f |})
                    _ Hl') as H1.
      pose proof (sum_counts_update _ _
                    (fun g => {| count := count g + 1; size := size g |})
                    _ Hl) as H2.
      simpl in *. lia.
    + pose proof (sum_sizes_update _ _
                    (fun g => {| count := count g; size := size g + fsize f |})
                    _ Hl') as H1.
      pose proof (sum_sizes_update _ _
                    (fun g => {| count := count g + 1; size := size g |})
                    _ Hl) as H2.
      simpl in *. lia.
  - destruct (in_prototype (topDir f)) eqn:Hk; simpl.
    + rewrite !(update_absent o) by assumption.
      repeat split; [assumption | lia | lia].
    + rewrite !update_keys.
      pose proof (lookup_define_own o (topDir f) {| count := 0; size := 0 |} Hl)
        as Hd.
      pose proof (lookup_update _ _
                    (fun g => {| count := count g + 1; size := size g |}) _ Hd)
        as Hl'.
      split; [| split].
      * unfold define_own. rewrite map_app. apply Forall_app. split.
        -- assumption.
        -- repeat constructor. assumption.
      * pose proof (sum_counts_update _ _
                      (fun g => {| count := count g; size := size g + fsize f |})
                      _ Hl') as H1.
        pose proof (sum_counts_update _ _
                      (fun g => {| count := count g + 1; size := size g |})
                      _ Hd) as H2.
        pose proof (sum_counts_define_own o (topDir f)
                      {| count := 0; size := 0 |}) as H3.
        simpl in *. lia.
      * pose proof (sum_sizes_update _ _
                      (fun g => {| count := count g; size := size g + fsize f |})
                      _ Hl') as H1.
        pose proof (sum_sizes_update _ _
                      (fun g => {| count := count g + 1; size := size g |})
                      _ Hd) as H2.
        pose proof (sum_sizes_define_own o (topDir f)
                      {| count := 0; size := 0 |}) as H3.
        simpl in *. lia.
Qed.

Lemma totalSize_from :
  forall files acc,
    fold_left (fun sum f => sum + fsize f) files acc = acc + totalSize files.
Proof.
  unfold totalSize.
  induction files as [| f files IH]; intros acc; simpl.
  - lia.
  - rewrite IH, (IH (fsize f)). lia.
Qed.

Lemma fold_group_step_sums :
  forall files o,
    unshadowed o ->
    sum_counts (fold_left group_step files o)
    = sum_counts o + N.of_nat (List.length (filter tracked files))
    /\ sum_sizes (fold_left group_step files o)
       = sum_sizes o + totalSize (filter tracked files).
Proof.
  induction files as [| f files IH]; intros o Ho; simpl.
  - unfold totalSize. simpl. lia.
  - destruct (group_step_sums o f Ho) as (Ho' & Hc & Hs).
    destruct (IH _ Ho') as [IHc IHs].
    rewrite IHc, IHs, Hc, Hs.
    destruct (tracked f); simpl.
    + unfold totalSize at 2. simpl. rewrite totalSize_from. lia.
    + lia.
Qed.

(** The table accounts for the files whose key [groups] does not inherit,
    and for no others. *)
Lemma grouping_sums :
  forall files,
    sum_counts (sorted files) = N.of_nat (List.length (filter tracked files))
    /\ sum_sizes (sorted files) = totalSize (filter tracked files).
Proof.
  intros files.
  rewrite <- (sum_counts_perm _ _ (sorted_perm files)).
  rewrite <- (sum_sizes_perm _ _ (sorted_perm files)).
  apply (fold_group_step_sums files []). constructor.
Qed.

Lemma filter_all :
  forall (A : Type) (keep : A -> bool) (l : list A),
    Forall (fun x => keep x = true) l -> filter keep l = l.
Proof.
  induction 1 as [| x l Hx _ IH]; simpl.
  - reflexivity.
  - now rewrite Hx, IH.
Qed.

(** Grouping is lossless on an inventory that has no file below a top-level
    name inherited from [Object.prototype]. *)
Lemma grouping_lossless :
  forall files,
    Forall (fun f => tracked f = true) files ->
    sum_counts (sorted files) = N.of_nat (List.length files)
    /\ sum_sizes (sorted files) = totalSize files.
Proof.
  intros files H.
  pose proof (grouping_sums files) as Hs.
  now rewrite (filter_all _ _ _ H) in Hs.
Qed.

(** The own properties of [groups] are created in the order in which the
    inventory first meets their keys. *)
Lemma lookup_keys :
  forall (o : jsobject) k,
    existsb (String.eqb k) (map fst o)
    = match lookup k o with Some _ => true | None => false end.
Proof.
  induction o as [| [k' g] o IH]; intros k; simpl.
  - reflexivity.
  - destruct (String.eqb k k'); [reflexivity | apply IH].
Qed.

Lemma group_step_keys :
  forall o f,
    map fst (group_step o f)
    = if existsb (String.eqb (topDir f)) (map fst o) || in_prototype (topDir f)
      then map fst o
      else (map fst o ++ [topDir f])%list.
Proof.
  intros o f. unfold group_step, get.
  rewrite !update_keys, lookup_keys.
  destruct (lookup (topDir f) o) as [g |]; simpl.
  - reflexivity.
  - destruct (in_prototype (topDir f)); simpl.
    + reflexivity.
    + unfold define_own. now rewrite map_app.
Qed.

Lemma groups_keys_from :
  forall files o,
    map fst (fold_left group_step files o)
    = first_seen (map fst o) (map topDir files).
Proof.
  induction files as [| f files IH]; intros o; simpl.
  - reflexivity.
  - rewrite IH, group_step_keys.
    now destruct (existsb (String.eqb (topDir f)) (map fst o)
                  || in_prototype (topDir f)).
Qed.

(** ** Inventory paths and grouping keys *)

Lemma walkFiles_dir :
  forall dir es base,
    walkFiles dir (Dir (Some es)) base = walk_loop dir base es [].
Proof. reflexivity. Qed.

Lemma walk_loop_cons :
  forall dir base name entry es results,
    walk_loop dir base ((name, entry) :: es) results =
    match entry with
    | Dir _ =>
        match walkFiles (dir ++ [name])%list entry base with
        | Ok sub => walk_loop dir base es (results ++ sub)%list
        | Throw e => Throw e
        end
    | File st _ =>
        match statSync st with
        | Ok size =>
            walk_loop dir base es
              (results ++ [{| fpath := path_relative base (dir ++ [name])%list;
                              fsize := size |}])%list
        | Throw e => Throw e
        end
    end.
Proof. reflexivity. Qed.

(** A property of every entry that the loop adds holds of its result. *)
Lemma walk_loop_inv :
  forall (P : file_entry -> Prop) dir base es,
    (forall name st c size,
        In (name, File st c) es ->
        statSync st = Ok size ->
        P {| fpath := path_relative base (dir ++ [name])%list;
             fsize := size |}) ->
    (forall name d sub,
        In (name, Dir d) es ->
        walkFiles (dir ++ [name])%list (Dir d) base = Ok sub ->
        Forall P sub) ->
    forall results files,
      Forall P results ->
      walk_loop dir base es results = Ok files ->
      Forall P files.
Proof.
  intros P dir base es.
  induction es as [| [name entry] es IH]; intros HF HD results files Hres Hrun.
  - simpl in Hrun. now injection Hrun as <-.
  - rewrite walk_loop_cons in Hrun.
    assert (HF' : forall name st c size,
               In (name, File st c) es -> statSync st = Ok size ->
               P {| fpath := path_relative base (dir ++ [name])%list;
                    fsize := size |})
      by (intros; eapply HF; [right |]; eassumption).
    assert (HD' : forall name d sub,
               In (name, Dir d) es ->
               walkFiles (dir ++ [name])%list (Dir d) base = Ok sub ->
               Forall P sub)
      by (intros; eapply HD; [right |]; eassumption).
    destruct entry as [st c | d].
    + destruct (statSync st) as [size |] eqn:Hst; [| discriminate].
      apply (IH HF' HD') in Hrun; [assumption |].
      apply Forall_app. split; [assumption |].
      repeat constructor. eapply HF; [left; reflexivity | assumption].
    + destruct (walkFiles (dir ++ [name])%list (Dir d) base) as [sub |] eqn:Hw;
        [| discriminate].
      apply (IH HF' HD') in Hrun; [assumption |].
      apply Forall_app. split; [assumption |].
      eapply HD; [left; reflexivity | assumption].
Qed.

Lemma strip_common_below :
  forall base r, strip_common base (base ++ r)%list = ([], r).
Proof.
  induction base as [| a base IH]; intros r; simpl.
  - now destruct r.
  - now rewrite String.eqb_refl.
Qed.

Lemma path_relative_below :
  forall base r, path_relative base (base ++ r)%list = join "/" r.
Proof.
  intros base r. unfold path_relative.
  now rewrite strip_common_below.
Qed.

Lemma walkFiles_below :
  forall n base rel files,
    walkFiles (base ++ rel)%list n base = Ok files -> Forall (below rel) files.
Proof.
  induction n as [st c | | es IH] using node_induction;
    intros base rel files Hrun; try discriminate.
  rewrite walkFiles_dir in Hrun.
  rewrite Forall_forall in IH.
  eapply walk_loop_inv; [| | constructor | exact Hrun].
  - intros name st c size _ _.
    exists [name]. split; [discriminate |].
    simpl. now rewrite <- app_assoc, path_relative_below.
  - intros name d sub Hin Hw.
    rewrite <- app_assoc in Hw.
    apply (IH _ Hin) in Hw.
    eapply Forall_impl; [| exact Hw].
    intros f (more & Hmore & Hf).
    exists (name :: more). split; [discriminate |].
    now rewrite Hf, <- app_assoc.
Qed.

Lemma split_no_sep :
  forall a, no_sep a = true -> split sep a = [a].
Proof.
  induction a as [| c a IH]; simpl; intros H.
  - reflexivity.
  - apply andb_prop in H as [Hc Ha].
    apply negb_true_iff in Hc. rewrite Hc, (IH Ha). reflexivity.
Qed.

Lemma split_no_sep_app :
  forall a t,
    no_sep a = true -> split sep (a ++ String sep t) = a :: split sep t.
Proof.
  induction a as [| c a IH]; simpl; intros t H.
  - reflexivity.
  - apply andb_prop in H as [Hc Ha].
    apply negb_true_iff in Hc. rewrite Hc, (IH t Ha). reflexivity.
Qed.

Lemma topDir_join :
  forall f name more,
    fpath f = join "/" (name :: more) ->
    entry_name name = true ->
    topDir f = name.
Proof.
  intros f name more Hf H. unfold entry_name in H.
  apply andb_prop in H as [Hne Hns]. apply negb_true_iff in Hne.
  unfold topDir. rewrite Hf.
  assert (Hhd : nth_error (split sep (join "/" (name :: more))) 0 = Some name).
  { destruct more as [| m more].
    - simpl. now rewrite split_no_sep.
    - change (join "/" (name :: m :: more))
        with (name ++ String sep (join "/" (m :: more))).
      now rewrite split_no_sep_app. }
  now rewrite Hhd, Hne.
Qed.

(** The key of an inventory entry is the name of the top-level entry of the
    unit it stems from: a directory name, or, for a file that lies directly
    at the unit root, the name of the file itself. *)
Lemma topDir_top_level_name :
  forall base es files,
    Forall (fun kv => entry_name (fst kv) = true) es ->
    walkFiles base (Dir (Some es)) base = Ok files ->
    Forall (keyed_by_top_level es) files.
Proof.
  intros base es files Hnames Hrun.
  rewrite walkFiles_dir in Hrun.
  rewrite Forall_forall in Hnames.
  eapply walk_loop_inv; [| | constructor | exact Hrun].
  - intros name st c size Hin _.
    exists name, (File st c).
    rewrite (path_relative_below base [name]).
    split; [assumption |]. split; [| reflexivity].
    apply (topDir_join _ name []); [reflexivity | apply (Hnames _ Hin)].
  - intros name d sub Hin Hw.
    pose proof (walkFiles_below (Dir d) base [name] sub Hw) as Hb.
    eapply Forall_impl; [| exact Hb].
    intros [p s] (more & _ & Hf). simpl in Hf. subst p.
    exists name, (Dir d).
    split; [assumption |]. split; [| discriminate].
    apply (topDir_join _ name more); [reflexivity | apply (Hnames _ Hin)].
Qed.

(** ** Claims on grouping and ordering *)

(** C1, evaluated where it fails: a unit with two files of 5100 bytes in all,
    one of them below a top-level directory named "constructor".  The group
    table has the single row of the other file: its counts sum to 1 and its
    sizes to 100, against totals of 2 files and 5100 bytes. *)
Theorem grouping_loses_prototype_named_directory :
  exists files,
    walkFiles ["fn.func"] unit_prototype_name ["fn.func"] = Ok files
    /\ N.of_nat (List.length files) = 2
    /\ totalSize files = 5100
    /\ sorted files = [("index.js", {| count := 1; size := 100 |})]
    /\ sum_counts (sorted files) = 1
    /\ sum_sizes (sorted files) = 100
    /\ fst (render files)
       = [ "  Total files: 2";
           "  Total size: 5.0 KB";
           nl ++ "  Top-level directories:";
           "    index.js: 1 files, 100 B";
           nl ++ "  ✓ No system directories detected in bundle." ].
Proof.
  eexists. split; [reflexivity |].
  repeat split; vm_compute; reflexivity.
Qed.

(** C9, evaluated where it fails: the file "index.js" at the unit root is
    grouped under the key "index.js", and no row has the key "(root)". *)
Theorem root_file_grouped_under_own_name :
  exists files,
    walkFiles ["fn.func"] unit_root_file ["fn.func"] = Ok files
    /\ files = [ {| fpath := "index.js"; fsize := 100 |};
                 {| fpath := "src/app.js"; fsize := 10 |} ]
    /\ map topDir files = ["index.js"; "src"]
    /\ sorted files = [ ("index.js", {| count := 1; size := 100 |});
                        ("src", {| count := 1; size := 10 |}) ]
    /\ ~ In "(root)" (map fst (sorted files)).
Proof.
  eexists. split; [reflexivity |].
  repeat split; try (vm_compute; reflexivity).
  vm_compute. intros [H | [H | []]]; discriminate.
Qed.

(** C5 as stated fails: two groups of 7 bytes each, "b" listed before "a",
    stay in that order; and two groups of 7 bytes each named "10" and "9"
    appear as "9", "10", whichever way the directory lists them. *)
Lemma tie_not_in_name_order :
  (exists files,
      walkFiles ["fn.func"] unit_tie ["fn.func"] = Ok files
      /\ sorted files = [ ("b", {| count := 1; size := 7 |});
                          ("a", {| count := 1; size := 7 |}) ]
      /\ ~ StronglySorted size_then_name (sorted files))
  /\ (exists files,
         walkFiles ["fn.func"] unit_index_tie ["fn.func"] = Ok files
         /\ sorted files = [ ("9", {| count := 1; size := 7 |});
                             ("10", {| count := 1; size := 7 |}) ]
         /\ ~ StronglySorted size_then_name (sorted files)).
Proof.
  split; eexists; (split; [reflexivity |]);
    (split; [vm_compute; reflexivity |]);
    intros H; vm_compute sorted in H;
    inversion H as [| a l _ Hall]; subst;
    inversion Hall as [| b l' Hab _]; subst;
    destruct Hab as [Hlt | [_ Hle]];
    solve [vm_compute in Hlt; discriminate | vm_compute in Hle; discriminate].
Qed.

(** C5, amended: the rows of the table are the entries of [groups], in
    order of non-increasing size, and groups of equal size keep the order
    that [Object.entries] lists them in; the properties of [groups] are
    created in the order in which the inventory first meets their keys. *)
Theorem sorted_by_size_stable :
  forall files,
    Permutation (entries (groups files)) (sorted files)
    /\ StronglySorted size_desc (sorted files)
    /\ (forall s,
           filter (has_size s) (sorted files)
           = filter (has_size s) (entries (groups files)))
    /\ map fst (groups files) = first_seen [] (map topDir files).
Proof.
  intros files. unfold sorted. repeat split.
  - apply array_sort_perm.
  - apply array_sort_size_desc.
  - intros s. apply array_sort_filter.
    intros x y Hx Hy. unfold has_size, by_size_desc in *.
    apply N.eqb_eq in Hx, Hy. lia.
  - apply (groups_keys_from files []).
Qed.

(** ** Control flow of the report *)

Lemma bind_normal :
  forall (A B : Type) (m : io A) (k : A -> io B) a,
    snd m = Normal a -> bind m k = ((fst m ++ fst (k a))%list, snd (k a)).
Proof.
  intros A B m k a H. unfold bind. now rewrite H.
Qed.

Lemma bind_uncaught :
  forall (A B : Type) (m : io A) (k : A -> io B) e,
    snd m = Uncaught e -> bind m k = (fst m, Uncaught e).
Proof.
  intros A B m k e H. unfold bind. now rewrite H.
Qed.

Lemma bind_log :
  forall (B : Type) (line : string) (k : unit -> io B),
    bind (log line) k = (line :: fst (k tt), snd (k tt)).
Proof. reflexivity. Qed.

Lemma bind_ret :
  forall (A B : Type) (a : A) (k : A -> io B), bind (ret a) k = k a.
Proof.
  intros A B a k. unfold bind, ret. simpl. now destruct (k a).
Qed.

Lemma for_each_log :
  forall (A : Type) (f : A -> string) (l : list A),
    for_each l (fun x => log (f x)) = (map f l, Normal tt).
Proof.
  induction l as [| x l IH]; simpl.
  - reflexivity.
  - unfold bind at 1. simpl. now rewrite IH.
Qed.

(** The loop over the units stops at the first unit whose block throws; the
    units after it are not looked at. *)
Lemma for_each_stops :
  forall (A : Type) (body : A -> io unit) before d after e,
    Forall (fun u => snd (body u) = Normal tt) before ->
    snd (body d) = Uncaught e ->
    for_each (before ++ d :: after) body
    = ((flat_map (fun u => fst (body u)) before ++ fst (body d))%list,
       Uncaught e).
Proof.
  intros A body before d after e Hb Hd.
  induction Hb as [| u before Hu _ IH]; simpl.
  - now apply bind_uncaught.
  - rewrite (bind_normal _ _ _ _ tt Hu), IH. simpl.
    now rewrite app_assoc.
Qed.

(** The block of a unit after its inventory: always complete. *)
Lemma render_normal : forall files, snd (render files) = Normal tt.
Proof.
  intros files. unfold render.
  rewrite !for_each_log.
  destruct (negb (Nat.eqb (List.length (suspiciousDirs files)) 0));
    reflexivity.
Qed.

(** The lines of a block after the inventory: the two totals, the table with
    one row per entry of [sorted], and the verdict. *)
Lemma render_lines :
  forall files,
    fst (render files)
    = (["  Total files: " ++ dec (N.of_nat (List.length files));
        "  Total size: " ++ formatSize (totalSize files);
        nl ++ "  Top-level directories:"]%string
       ++ map row (sorted files)
       ++ match suspiciousDirs files with
          | [] => [nl ++ "  ✓ No system directories detected in bundle."]%string
          | _ :: _ =>
              [nl ++ "  ⚠ SYSTEM DIRECTORIES DETECTED IN BUNDLE:"]%string
              ++ map row (suspiciousDirs files)
              ++ [nl ++ "  This confirms the NFT tracing bug — system files are being bundled.";
                  "  See: https://github.com/sveltejs/kit/issues/13764"]%string
          end)%list.
Proof.
  intros files. unfold render.
  rewrite !bind_log, !for_each_log. cbn [fst snd].
  rewrite (bind_normal _ _ (map row (sorted files), Normal tt) _ tt eq_refl).
  cbn [fst snd].
  destruct (suspiciousDirs files) as [| kv l]; cbn [List.length Nat.eqb negb].
  - reflexivity.
  - reflexivity.
Qed.

(** The descriptor step never ends the process by itself. *)
Lemma describe_no_exit :
  forall unit, snd (describe unit) = Normal tt
               \/ exists e, snd (describe unit) = Uncaught e.
Proof.
  intros unit. unfold describe.
  destruct (existsSync unit ".vc-config.json"); [| now left].
  destruct (readJson unit ".vc-config.json") as [v |];
    [| right; eexists; reflexivity].
  cbn.
  destruct (get_prop v "handler") as [h |] eqn:Hh;
    [| right; eexists; reflexivity].
  cbn.
  destruct (to_string h) as [ht |]; [| right; eexists; reflexivity].
  cbn.
  assert (Hr : exists r, get_prop v "runtime" = Ok r).
  { destruct v; try discriminate; simpl; eauto.
    destruct (lookup "runtime" props); eauto. }
  destruct Hr as (r & ->). cbn.
  destruct (to_string r) as [rt |]; [| right; eexists; reflexivity].
  cbn.
  destruct (js_includes h "vercel/path0") as [[] |];
    [left | left | right; eexists]; reflexivity.
Qed.

Lemma report_unfold :
  forall out d,
    report out d
    = bind (([nl ++ "Function: " ++ path_relative out (fst d);
              repeat_str "-" 50], Normal tt) : io unit)
           (fun _ =>
              describe (snd d) ;;
              files <- lift (walkFiles (fst d) (snd d) (fst d)) ;;
              render files).
Proof. reflexivity. Qed.

(** When the descriptor step throws, the block ends there. *)
Lemma report_describe_throws :
  forall out d e,
    snd (describe (snd d)) = Uncaught e ->
    report out d = ((header out d ++ fst (describe (snd d)))%list, Uncaught e).
Proof.
  intros out d e H. rewrite report_unfold.
  unfold bind at 1. cbn [fst snd].
  rewrite (bind_uncaught _ _ (describe (snd d)) _ e H). reflexivity.
Qed.

(** When the inventory throws, the block ends before any total. *)
Lemma report_walk_throws :
  forall out d e,
    snd (describe (snd d)) = Normal tt ->
    walkFiles (fst d) (snd d) (fst d) = Throw e ->
    report out d = ((header out d ++ fst (describe (snd d)))%list, Uncaught e).
Proof.
  intros out d e H Hw. rewrite report_unfold.
  unfold bind at 1. cbn [fst snd].
  rewrite (bind_normal _ _ (describe (snd d)) _ tt H).
  rewrite Hw. simpl. now rewrite app_nil_r.
Qed.

(** The run ends at the first unit whose block throws. *)
Lemma main_stops_at_first_failure :
  forall w root before d after e,
    functions w = Some root ->
    findFuncDirs (outputDir w) root = Ok (before ++ d :: after)%list ->
    Forall (completes (outputDir w)) before ->
    snd (report (outputDir w) d) = Uncaught e ->
    main w
    = ((banner ++ blocks (outputDir w) before
               ++ fst (report (outputDir w) d))%list,
       Uncaught e).
Proof.
  intros w root before d after e Hroot Hfind Hbefore Hd.
  pose proof (for_each_stops _ _ _ _ after e Hbefore Hd) as Hfe.
  assert (Hlen : Nat.eqb (List.length (before ++ d :: after)) 0 = false)
    by (rewrite length_app; simpl; apply Nat.eqb_neq; lia).
  unfold main. rewrite Hroot.
  fold (outputDir w). rewrite Hfind.
  cbn [lift].
  rewrite !bind_log. cbn [fst snd].
  rewrite !bind_ret, Hlen, !bind_ret.
  rewrite (bind_uncaught _ _ _ _ _ (f_equal snd Hfe)), Hfe.
  reflexivity.
Qed.

(** ** Failures of the inventory *)

Lemma statSync_error :
  forall st e, statSync st = Throw e -> e = FsError.
Proof.
  intros [size |] e H; simpl in H; congruence.
Qed.

Lemma walk_loop_error :
  forall dir base es,
    Forall (fun kv => forall dir' e,
                walkFiles dir' (snd kv) base = Throw e -> e = FsError) es ->
    forall results e,
      walk_loop dir base es results = Throw e -> e = FsError.
Proof.
  intros dir base es IH.
  induction IH as [| [name entry] es He _ IHes]; intros results e Hrun.
  - discriminate.
  - rewrite walk_loop_cons in Hrun. simpl in He.
    destruct entry as [st c | d].
    + destruct (statSync st) as [size |] eqn:Hst.
      * eauto.
      * injection Hrun as <-. eapply statSync_error, Hst.
    + destruct (walkFiles (dir ++ [name])%list (Dir d) base) as [sub |] eqn:Hw.
      * eauto.
      * injection Hrun as <-. eapply He, Hw.
Qed.

Lemma walkFiles_error :
  forall n dir base e, walkFiles dir n base = Throw e -> e = FsError.
Proof.
  induction n as [st c | | es IH] using node_induction;
    intros dir base e Hrun; try (simpl in Hrun; congruence).
  rewrite walkFiles_dir in Hrun.
  eapply walk_loop_error; [| exact Hrun].
  eapply Forall_impl; [| exact IH]. intros kv H dir' e'. apply H.
Qed.

Lemma walk_loop_inaccessible :
  forall dir base name e,
    inaccessible e ->
    (forall dir', walkFiles dir' e base = Throw FsError) ->
    forall es results,
      In (name, e) es ->
      walk_loop dir base es results = Throw FsError.
Proof.
  intros dir base name e Hbad Hthrow.
  induction es as [| [name0 e0] es IH]; intros results Hin.
  - contradiction.
  - rewrite walk_loop_cons.
    destruct Hin as [Heq | Hin].
    + injection Heq as -> ->.
      destruct e as [st c | d].
      * inversion Hbad; subst. reflexivity.
      * now rewrite Hthrow.
    + destruct e0 as [st c | d].
      * destruct (statSync st) as [size |] eqn:Hst; [now apply IH |].
        f_equal. eapply statSync_error, Hst.
      * destruct (walkFiles (dir ++ [name0])%list (Dir d) base)
          as [sub |] eqn:Hw; [now apply IH |].
        f_equal. eapply walkFiles_error, Hw.
Qed.

Lemma walkFiles_inaccessible :
  forall n,
    inaccessible n ->
    forall dir base, walkFiles dir n base = Throw FsError.
Proof.
  induction 1 as [| c | es name e Hin Hbad IH]; intros dir base;
    try reflexivity.
  rewrite walkFiles_dir.
  eapply walk_loop_inaccessible; eauto.
Qed.

Lemma describe_malformed :
  forall unit,
    malformed_descriptor unit -> describe unit = ([], Uncaught SyntaxError).
Proof.
  intros unit [He Hr]. unfold describe. now rewrite He, Hr.
Qed.

Lemma report_malformed :
  forall out d,
    malformed_descriptor (snd d) ->
    report out d = (header out d, Uncaught SyntaxError).
Proof.
  intros out d H.
  pose proof (describe_malformed _ H) as Hd.
  rewrite (report_describe_throws out d SyntaxError) by now rewrite Hd.
  rewrite Hd. reflexivity.
Qed.

Lemma report_inaccessible :
  forall out d,
    inaccessible (snd d) ->
    exists e,
      report out d = ((header out d ++ fst (describe (snd d)))%list, Uncaught e)
      /\ (snd (describe (snd d)) = Normal tt -> e = FsError).
Proof.
  intros out d H.
  destruct (describe_no_exit (snd d)) as [Hn | (e & He)].
  - exists FsError. split; [| reflexivity].
    apply report_walk_throws; [assumption |].
    now apply walkFiles_inaccessible.
  - exists e. split; [now apply report_describe_throws |].
    congruence.
Qed.

(** ** Claims on failures *)

(** C3 as stated fails: the first of two units has a descriptor that is not
    JSON; the run writes the banner and the two header lines of that unit,
    then ends on the uncaught [SyntaxError], with status 1 and without a
    block for the second unit. *)
Lemma malformed_descriptor_stops_run :
  malformed_descriptor unit_malformed
  /\ main world_malformed
     = ((banner ++ [(nl ++ "Function: a.func")%string; repeat_str "-" 50])%list,
        Uncaught SyntaxError)
  /\ status (snd (main world_malformed)) = 1
  /\ ~ reported (fst (main world_malformed)) "b.func".
Proof.
  split; [split; reflexivity |].
  split; [vm_compute; reflexivity |].
  split; [vm_compute; reflexivity |].
  unfold reported. vm_compute.
  intros H. repeat (destruct H as [H | H]; [discriminate |]). exact H.
Qed.

(** C3, amended: a unit whose descriptor is present and is not JSON gets
    its two header lines and nothing else; [JSON.parse] throws, nothing
    catches, and the run ends there with the uncaught [SyntaxError], after
    the blocks of the units before it. *)
Theorem malformed_descriptor_aborts :
  forall w root before d after,
    functions w = Some root ->
    findFuncDirs (outputDir w) root = Ok (before ++ d :: after)%list ->
    Forall (completes (outputDir w)) before ->
    malformed_descriptor (snd d) ->
    report (outputDir w) d = (header (outputDir w) d, Uncaught SyntaxError)
    /\ main w
       = ((banner ++ blocks (outputDir w) before ++ header (outputDir w) d)%list,
          Uncaught SyntaxError).
Proof.
  intros w root before d after Hroot Hfind Hbefore Hbad.
  pose proof (report_malformed (outputDir w) d Hbad) as Hrep.
  split; [exact Hrep |].
  rewrite (main_stops_at_first_failure w root before d after SyntaxError)
    by (trivial; now rewrite Hrep).
  now rewrite Hrep.
Qed.

Lemma malformed_descriptor_aborts_witness :
  let out := outputDir world_malformed in
  let a := ((out ++ ["a.func"])%list, unit_malformed) in
  report out a = (header out a, Uncaught SyntaxError)
  /\ main world_malformed
     = ((banner ++ blocks out [] ++ header out a)%list, Uncaught SyntaxError).
Proof.
  intros out a.
  apply (malformed_descriptor_aborts
           world_malformed
           (Dir (Some [("a.func", unit_malformed); ("b.func", unit_clean)]))
           [] a [((out ++ ["b.func"])%list, unit_clean)]).
  - reflexivity.
  - reflexivity.
  - constructor.
  - split; reflexivity.
Defined.

(** C4 as stated fails: the first of two units holds a directory that cannot
    be listed; the run writes the banner and the two header lines of that
    unit, then ends on the uncaught file-system error, with status 1,
    without totals, without a warning and without a block for the second
    unit. *)
Lemma unreadable_directory_stops_run :
  inaccessible unit_partly_unreadable
  /\ main world_unreadable
     = ((banner ++ [(nl ++ "Function: a.func")%string; repeat_str "-" 50])%list,
        Uncaught FsError)
  /\ status (snd (main world_unreadable)) = 1
  /\ ~ reported (fst (main world_unreadable)) "b.func".
Proof.
  split.
  { apply inaccessible_below with "secret" (Dir None).
    - right. left. reflexivity.
    - constructor. }
  split; [vm_compute; reflexivity |].
  split; [vm_compute; reflexivity |].
  unfold reported. vm_compute.
  intros H. repeat (destruct H as [H | H]; [discriminate |]). exact H.
Qed.

(** C4, amended: when a directory below a unit cannot be listed, or an entry
    cannot be examined, the inventory throws; the block of the unit ends
    after its header and descriptor lines, before any total, and the run
    ends there with an uncaught error, after the blocks of the units before
    it. *)
Theorem inventory_failure_aborts :
  forall w root before d after,
    functions w = Some root ->
    findFuncDirs (outputDir w) root = Ok (before ++ d :: after)%list ->
    Forall (completes (outputDir w)) before ->
    inaccessible (snd d) ->
    walkFiles (fst d) (snd d) (fst d) = Throw FsError
    /\ exists e,
        main w
        = ((banner ++ blocks (outputDir w) before
                   ++ header (outputDir w) d ++ fst (describe (snd d)))%list,
           Uncaught e)
        /\ (snd (describe (snd d)) = Normal tt -> e = FsError).
Proof.
  intros w root before d after Hroot Hfind Hbefore Hbad.
  split; [now apply walkFiles_inaccessible |].
  destruct (report_inaccessible (outputDir w) d Hbad) as (e & Hrep & He).
  exists e. split; [| exact He].
  rewrite (main_stops_at_first_failure w root before d after e)
    by (trivial; now rewrite Hrep).
  now rewrite Hrep.
Qed.

Lemma inventory_failure_aborts_witness :
  let out := outputDir world_unreadable in
  let a := ((out ++ ["a.func"])%list, unit_partly_unreadable) in
  walkFiles (fst a) (snd a) (fst a) = Throw FsError
  /\ exists e,
      main world_unreadable
      = ((banner ++ blocks out [] ++ header out a ++ fst (describe (snd a)))%list,
         Uncaught e)
      /\ (snd (describe (snd a)) = Normal tt -> e = FsError).
Proof.
  intros out a.
  apply (inventory_failure_aborts
           world_unreadable
           (Dir (Some [("a.func", unit_partly_unreadable);
                       ("b.func", unit_clean)]))
           [] a [((out ++ ["b.func"])%list, unit_clean)]).
  - reflexivity.
  - reflexivity.
  - constructor.
  - apply inaccessible_below with "secret" (Dir None).
    + right. left. reflexivity.
    + constructor.
Defined.

(** C7 as stated fails: when the output root is a regular file, the run
    writes the banner and ends on the uncaught error of the directory
    listing, with status 1 and without the one-line message. *)
Lemma root_file_stops_run :
  main world_root_is_file = (banner, Uncaught FsError)
  /\ status (snd (main world_root_is_file)) = 1.
Proof.
  split; vm_compute; reflexivity.
Qed.

(** C7, amended: when the output root does not exist, the run writes the
    banner and the one-line message, reports no unit, and exits with
    status 0. *)
Theorem missing_root_exits_cleanly :
  forall w,
    functions w = None ->
    main w
    = ((banner
          ++ ["No .vercel/output/functions/ directory found. Skipping analysis."])%list,
       Exit 0)
    /\ status (snd (main w)) = 0
    /\ forall name, ~ reported (fst (main w)) name.
Proof.
  intros w H.
  assert (Hmain :
            main w
            = ((banner
                  ++ ["No .vercel/output/functions/ directory found. Skipping analysis."])%list,
               Exit 0))
    by (unfold main; rewrite H; reflexivity).
  rewrite Hmain. repeat split.
  intros name. unfold reported. simpl.
  intros Hin. repeat (destruct Hin as [Hin | Hin]; [discriminate |]).
  exact Hin.
Qed.

Lemma missing_root_exits_cleanly_witness :
  main world_no_build
  = ((banner
        ++ ["No .vercel/output/functions/ directory found. Skipping analysis."])%list,
     Exit 0)
  /\ status (snd (main world_no_build)) = 0
  /\ forall name, ~ reported (fst (main world_no_build)) name.
Proof.
  apply (missing_root_exits_cleanly world_no_build). reflexivity.
Defined.

(** ** The handler warning *)

Lemma describe_marked :
  forall unit v h rv rt,
    existsSync unit ".vc-config.json" = true ->
    readJson unit ".vc-config.json" = Ok v ->
    get_prop v "handler" = Ok (Val (JStr h)) ->
    get_prop v "runtime" = Ok rv ->
    to_string rv = Ok rt ->
    includes h "vercel/path0" = true ->
    describe unit
    = (["  Handler: " ++ h; "  Runtime: " ++ rt; handler_warning], Normal tt).
Proof.
  intros unit v h rv rt He Hj Hh Hr Hrt Hi.
  unfold describe. rewrite He, Hj.
  cbn [lift]. rewrite bind_ret, Hh.
  cbn [lift]. rewrite bind_ret.
  cbn [to_string json_to_string lift]. rewrite bind_ret, bind_log, Hr.
  cbn [lift]. rewrite bind_ret, Hrt.
  cbn [lift]. rewrite bind_ret, bind_log.
  cbn [js_includes]. rewrite Hi.
  cbn [lift]. rewrite bind_ret.
  reflexivity.
Qed.

(** C10: when the descriptor of a unit is read and parsed, its handler is a
    string that contains "vercel/path0", and its runtime prints, the block of
    the unit carries the handler warning right after the handler and runtime
    lines.  Nothing is asked of the files of the unit: the warning is there
    whether or not a directory group is flagged. *)
Theorem handler_marker_warning :
  forall out d v h rv rt,
    existsSync (snd d) ".vc-config.json" = true ->
    readJson (snd d) ".vc-config.json" = Ok v ->
    get_prop v "handler" = Ok (Val (JStr h)) ->
    get_prop v "runtime" = Ok rv ->
    to_string rv = Ok rt ->
    includes h "vercel/path0" = true ->
    In handler_warning (fst (report out d))
    /\ exists rest,
        fst (report out d)
        = (header out d
             ++ ["  Handler: " ++ h; "  Runtime: " ++ rt; handler_warning]%string
             ++ rest)%list.
Proof.
  intros out d v h rv rt He Hj Hh Hr Hrt Hi.
  pose proof (describe_marked _ v h rv rt He Hj Hh Hr Hrt Hi) as Hd.
  assert (Hrep : exists rest,
             fst (report out d)
             = (header out d
                  ++ ["  Handler: " ++ h; "  Runtime: " ++ rt;
                      handler_warning]%string
                  ++ rest)%list).
  { rewrite report_unfold.
    unfold bind at 1. cbn [fst snd].
    rewrite (bind_normal _ _ (describe (snd d)) _ tt) by now rewrite Hd.
    rewrite Hd. cbn [fst].
    eexists. reflexivity. }
  split; [| exact Hrep].
  destruct Hrep as (rest & ->).
  apply in_or_app. right. simpl. auto.
Qed.

Lemma handler_marker_warning_witness :
  (In handler_warning (fst (report ["out"] (["out"; "a.func"], unit_collapsed)))
   /\ suspiciousDirs [ {| fpath := ".vc-config.json"; fsize := 64 |};
                       {| fpath := "src/app.js"; fsize := 10 |} ] = [])
  /\ (In handler_warning
         (fst (report ["out"] (["out"; "a.func"], unit_collapsed_usr)))
      /\ suspiciousDirs [ {| fpath := ".vc-config.json"; fsize := 64 |};
                          {| fpath := "usr/lib.so"; fsize := 2048 |} ]
         = [("usr", {| count := 1; size := 2048 |})]).
Proof.
  split; (split; [| vm_compute; reflexivity]).
  - apply (handler_marker_warning
             ["out"] (["out"; "a.func"], unit_collapsed)
             (vc_config "vercel/path0/apps/web/index.js" "nodejs22.x")
             "vercel/path0/apps/web/index.js"
             (Val (JStr "nodejs22.x")) "nodejs22.x");
      reflexivity.
  - apply (handler_marker_warning
             ["out"] (["out"; "a.func"], unit_collapsed_usr)
             (vc_config "vercel/path0/apps/web/index.js" "nodejs22.x")
             "vercel/path0/apps/web/index.js"
             (Val (JStr "nodejs22.x")) "nodejs22.x");
      reflexivity.
Defined.

(** * Further properties *)

(** ** The inventory of a readable unit *)

Lemma inventory_dir :
  forall rel es, inventory rel (Dir (Some es)) = inventory_entries rel es.
Proof. reflexivity. Qed.

Lemma accessible_dir :
  forall es, accessible (Dir (Some es)) = accessible_entries es.
Proof. reflexivity. Qed.

Lemma walk_loop_inventory :
  forall base rel es,
    Forall (fun kv =>
              forall rel',
                isDirectory (snd kv) = true ->
                accessible (snd kv) = true ->
                walkFiles (base ++ rel')%list (snd kv) base
                = Ok (inventory rel' (snd kv))) es ->
    accessible_entries es = true ->
    forall results,
      walk_loop (base ++ rel)%list base es results
      = Ok (results ++ inventory_entries rel es)%list.
Proof.
  intros base rel es IH.
  induction IH as [| [name e] es He _ IHes]; intros Hacc results.
  - simpl. now rewrite app_nil_r.
  - simpl in Hacc. apply andb_prop in Hacc as [Hhere Hrest].
    rewrite walk_loop_cons. simpl in He.
    destruct e as [[size |] c | d].
    + simpl statSync. cbv iota. rewrite (IHes Hrest).
      rewrite <- (app_assoc base rel [name]), path_relative_below.
      rewrite <- app_assoc. reflexivity.
    + discriminate.
    + rewrite <- (app_assoc base rel [name]).
      rewrite (He (rel ++ [name])%list eq_refl Hhere).
      rewrite (IHes Hrest), <- app_assoc. reflexivity.
Qed.

Lemma walkFiles_inventory :
  forall n base rel,
    isDirectory n = true ->
    accessible n = true ->
    walkFiles (base ++ rel)%list n base = Ok (inventory rel n).
Proof.
  induction n as [st c | | es IH] using node_induction;
    intros base rel Hdir Hacc; try discriminate.
  rewrite walkFiles_dir, inventory_dir.
  apply (walk_loop_inventory base rel es); [| exact Hacc].
  eapply Forall_impl; [| exact IH].
  intros kv H rel'. apply H.
Qed.

Lemma accessible_inaccessible :
  forall n, accessible n = false <-> inaccessible n.
Proof.
  intros n. split.
  - induction n as [[size |] c | | es IH] using node_induction; intros H;
      try discriminate; try constructor.
    rewrite accessible_dir in H.
    induction IH as [| [name e] es He _ IHes]; simpl in H; [discriminate |].
    apply andb_false_iff in H as [H | H].
    + apply inaccessible_below with name e; [now left | now apply He].
    + specialize (IHes H). inversion IHes; subst.
      apply inaccessible_below with name0 e0; [now right | assumption].
  - induction 1 as [| c | es name e Hin Hbad IH]; try reflexivity.
    rewrite accessible_dir.
    induction es as [| [name0 e0] es IHes]; [contradiction |].
    simpl. apply andb_false_iff.
    destruct Hin as [Heq | Hin].
    + injection Heq as -> ->. now left.
    + right. now apply IHes.
Qed.

Lemma inventory_totals :
  forall n rel,
    accessible n = true ->
    isDirectory n = true ->
    N.of_nat (List.length (inventory rel n)) = file_count n
    /\ totalSize (inventory rel n) = byte_count n.
Proof.
  induction n as [st c | | es IH] using node_induction;
    intros rel Hacc Hdir; try discriminate.
  rewrite inventory_dir. rewrite accessible_dir in Hacc. clear Hdir.
  change (file_count (Dir (Some es)))
    with ((fix sum (l : list (string * node)) : N :=
             match l with
             | [] => 0
             | (_, e) :: l' => file_count e + sum l'
             end) es).
  change (byte_count (Dir (Some es)))
    with ((fix sum (l : list (string * node)) : N :=
             match l with
             | [] => 0
             | (_, e) :: l' => byte_count e + sum l'
             end) es).
  induction IH as [| [name e] es He _ IHes]; simpl in *.
  - split; reflexivity.
  - apply andb_prop in Hacc as [Hhere Hrest].
    destruct (IHes Hrest) as [IHc IHs].
    rewrite length_app, Nat2N.inj_add.
    unfold totalSize in *. rewrite fold_left_app, totalSize_from.
    fold (totalSize (inventory_entries rel es)).
    unfold totalSize. rewrite IHc, IHs.
    destruct e as [[size |] c | d].
    + simpl. split; lia.
    + discriminate.
    + destruct (He (rel ++ [name])%list Hhere eq_refl) as [Hc Hs].
      unfold totalSize in Hs. rewrite Hc, Hs. split; lia.
Qed.

(** X1: for a unit in which every directory can be listed and every other
    entry examined, the inventory succeeds and holds one entry for each
    entry that is not a directory, in listing order and depth first, each
    under its names joined by "/" and with its size; directories are no
    entries.  The number of entries and the total size are the counts of the
    tree. *)
Theorem walkFiles_accessible :
  forall base es,
    accessible (Dir (Some es)) = true ->
    walkFiles base (Dir (Some es)) base = Ok (inventory [] (Dir (Some es)))
    /\ N.of_nat (List.length (inventory [] (Dir (Some es))))
       = file_count (Dir (Some es))
    /\ totalSize (inventory [] (Dir (Some es))) = byte_count (Dir (Some es)).
Proof.
  intros base es Hacc. split.
  - pose proof (walkFiles_inventory (Dir (Some es)) base [] eq_refl Hacc) as H.
    now rewrite app_nil_r in H.
  - now apply inventory_totals.
Qed.

Lemma walkFiles_accessible_witness :
  walkFiles ["fn.func"] unit_clean ["fn.func"] = Ok (inventory [] unit_clean)
  /\ N.of_nat (List.length (inventory [] unit_clean)) = file_count unit_clean
  /\ totalSize (inventory [] unit_clean) = byte_count unit_clean.
Proof.
  apply (walkFiles_accessible ["fn.func"]). reflexivity.
Defined.

(** X2: the inventory of a unit fails exactly when some directory below it
    cannot be listed or some entry cannot be examined; the error is then
    the one of the file system, whatever else the unit holds. *)
Theorem walkFiles_fails_iff :
  forall base es,
    (accessible (Dir (Some es)) = false
     <-> walkFiles base (Dir (Some es)) base = Throw FsError)
    /\ (accessible (Dir (Some es)) = true
        <-> exists files, walkFiles base (Dir (Some es)) base = Ok files).
Proof.
  intros base es.
  destruct (accessible (Dir (Some es))) eqn:Hacc.
  - pose proof (walkFiles_inventory (Dir (Some es)) base [] eq_refl Hacc) as H.
    rewrite app_nil_r in H. rewrite H.
    split; split; try discriminate; eauto.
  - pose proof (walkFiles_inaccessible _ (proj1 (accessible_inaccessible _) Hacc)
                  base base) as H.
    rewrite H.
    split; split; trivial; try discriminate.
    intros (files & Hf). discriminate.
Qed.

(** ** The rows of the group table *)

Lemma lookup_update_other :
  forall o k k' f, k <> k' -> lookup k (update o k' f) = lookup k o.
Proof.
  induction o as [| [k0 g] o IH]; intros k k' f Hne; simpl.
  - reflexivity.
  - destruct (String.eqb_spec k' k0) as [-> | Hk']; simpl.
    + destruct (String.eqb_spec k k0); [contradiction | reflexivity].
    + destruct (String.eqb k k0); [reflexivity | now apply IH].
Qed.

Lemma lookup_define_own_other :
  forall o k k' g, k <> k' -> lookup k (define_own o k' g) = lookup k o.
Proof.
  unfold define_own.
  induction o as [| [k0 g0] o IH]; intros k k' g Hne; simpl.
  - destruct (String.eqb_spec k k'); [contradiction | reflexivity].
  - destruct (String.eqb k k0); [reflexivity | now apply IH].
Qed.

Lemma lookup_group_step :
  forall o f k,
    lookup k (group_step o f)
    = if has_key k f then
        match lookup k o with
        | Some g => Some {| count := count g + 1; size := size g + fsize f |}
        | None =>
            if in_prototype k then None
            else Some {| count := 0 + 1; size := 0 + fsize f |}
        end
      else lookup k o.
Proof.
  intros o f k. unfold has_key, group_step, get.
  destruct (String.eqb_spec (topDir f) k) as [<- | Hne].
  - destruct (lookup (topDir f) o) as [g |] eqn:Hl; simpl.
    + rewrite (lookup_update _ _ _ {| count := count g + 1; size := size g |});
        [reflexivity |].
      exact (lookup_update o _
               (fun g => {| count := count g + 1; size := size g |}) g Hl).
    + destruct (in_prototype (topDir f)); simpl.
      * now rewrite !(update_absent o).
      * rewrite (lookup_update _ _ _ {| count := 0 + 1; size := 0 |});
          [reflexivity |].
        exact (lookup_update _ _
                 (fun g => {| count := count g + 1; size := size g |})
                 {| count := 0; size := 0 |}
                 (lookup_define_own o _ _ Hl)).
  - assert (Hne' : k <> topDir f) by congruence.
    rewrite !lookup_update_other by assumption.
    destruct (negb (truthy _)); [now apply lookup_define_own_other | reflexivity].
Qed.

Lemma tally_cons :
  forall k f files,
    tally k (f :: files)
    = if has_key k f
      then {| count := 1 + count (tally k files);
              size := fsize f + size (tally k files) |}
      else tally k files.
Proof.
  intros k f files. unfold tally. simpl filter.
  destruct (has_key k f); [| reflexivity].
  cbn [List.length count size].
  unfold totalSize at 1. simpl fold_left. rewrite totalSize_from.
  f_equal. lia.
Qed.

Lemma lookup_fold_group_step :
  forall files o k,
    lookup k (fold_left group_step files o)
    = match lookup k o with
      | Some g => Some (add_group g (tally k files))
      | None =>
          if in_prototype k || (count (tally k files) =? 0)
          then None
          else Some (tally k files)
      end.
Proof.
  induction files as [| f files IH]; intros o k.
  - simpl. destruct (lookup k o) as [[c s] |].
    + unfold add_group. simpl. now rewrite !N.add_0_r.
    + now rewrite orb_true_r.
  - simpl fold_left. rewrite IH, lookup_group_step, tally_cons.
    destruct (has_key k f); [| reflexivity].
    destruct (lookup k o) as [g |].
    + unfold add_group. cbn [count size]. f_equal. f_equal; lia.
    + destruct (in_prototype k); cbn [orb]; [reflexivity |].
      cbn [count size].
      destruct (N.eqb_spec (1 + count (tally k files)) 0) as [H | _]; [lia |].
      unfold add_group. cbn [count size]. reflexivity.
Qed.

Lemma existsb_eqb_in :
  forall k l, existsb (String.eqb k) l = true <-> In k l.
Proof.
  intros k l. rewrite existsb_exists. split.
  - intros (x & Hin & Heq). apply String.eqb_eq in Heq. now subst.
  - intros Hin. exists k. split; [assumption | apply String.eqb_refl].
Qed.

Lemma first_seen_nodup :
  forall keys seen, NoDup seen -> NoDup (first_seen seen keys).
Proof.
  induction keys as [| k keys IH]; intros seen Hseen; simpl.
  - assumption.
  - destruct (existsb (String.eqb k) seen) eqn:Hk; simpl.
    + now apply IH.
    + destruct (in_prototype k); [now apply IH |].
      apply IH. apply NoDup_app; [assumption | repeat constructor; intros [] |].
      intros x Hx [<- | []].
      apply existsb_eqb_in in Hx. congruence.
Qed.

Lemma groups_nodup : forall files, NoDup (map fst (groups files)).
Proof.
  intros files. unfold groups.
  rewrite groups_keys_from. apply first_seen_nodup. constructor.
Qed.

Lemma lookup_in :
  forall (o : jsobject) k g,
    NoDup (map fst o) -> (In (k, g) o <-> lookup k o = Some g).
Proof.
  induction o as [| [k0 g0] o IH]; intros k g Hnd; simpl.
  - split; [contradiction | discriminate].
  - inversion Hnd as [| ? ? Hnotin Hnd']; subst.
    destruct (String.eqb_spec k k0) as [-> | Hne].
    + split.
      * intros [Heq | Hin]; [congruence |].
        exfalso. apply Hnotin. now apply (in_map fst) in Hin.
      * intros H. left. congruence.
    + rewrite <- (IH k g Hnd'). split.
      * intros [Heq | Hin]; [congruence | assumption].
      * now right.
Qed.

Lemma sorted_row_iff :
  forall files k g,
    In (k, g) (sorted files)
    <-> in_prototype k = false
        /\ count (tally k files) <> 0
        /\ g = tally k files.
Proof.
  intros files k g.
  assert (Hrow : In (k, g) (sorted files) <-> In (k, g) (groups files)).
  { split; apply Permutation_in;
      [apply Permutation_sym |]; apply sorted_perm. }
  rewrite Hrow, (lookup_in _ k g (groups_nodup files)).
  unfold groups. rewrite lookup_fold_group_step. simpl lookup.
  destruct (in_prototype k); cbn [orb].
  - split; [discriminate | intros [H _]; discriminate].
  - destruct (N.eqb_spec (count (tally k files)) 0) as [Hz | Hnz].
    + split; [discriminate | intros (_ & H & _); contradiction].
    + split.
      * intros H. injection H as <-. auto.
      * intros (_ & _ & ->). reflexivity.
Qed.

Lemma tally_nonzero :
  forall k files,
    count (tally k files) <> 0 <-> exists f, In f files /\ topDir f = k.
Proof.
  intros k files. unfold tally. cbn [count]. split.
  - intros H.
    destruct (filter (has_key k) files) as [| f l] eqn:Hf; [contradiction |].
    assert (Hin : In f (filter (has_key k) files)) by (rewrite Hf; now left).
    apply filter_In in Hin as [Hin Hk].
    exists f. split; [assumption | now apply String.eqb_eq].
  - intros (f & Hin & Hk).
    assert (Hin' : In f (filter (has_key k) files)).
    { apply filter_In. split; [assumption |].
      unfold has_key. rewrite Hk. apply String.eqb_refl. }
    destruct (filter (has_key k) files); [contradiction | simpl; lia].
Qed.

(** X3: the table has a row for a key exactly when some inventory entry has
    that key and the key does not name an inherited property; the row then
    carries the number of the entries with that key and the sum of their
    sizes.  No key has two rows. *)
Theorem sorted_rows_tally :
  forall files,
    NoDup (map fst (sorted files))
    /\ forall k g,
        In (k, g) (sorted files)
        <-> in_prototype k = false
            /\ (exists f, In f files /\ topDir f = k)
            /\ g = tally k files.
Proof.
  intros files. split.
  - eapply Permutation_NoDup; [| apply groups_nodup].
    apply Permutation_map, sorted_perm.
  - intros k g. rewrite sorted_row_iff, tally_nonzero. reflexivity.
Qed.

(** X4: when the names at the root of a unit are names the file system can
    hold and none of them names a property that objects inherit, grouping
    loses nothing: the counts of the table sum to the number of files of the
    inventory and its sizes to the total size. *)
Theorem grouping_lossless_unit :
  forall base es files,
    Forall (fun kv => entry_name (fst kv) = true
                      /\ in_prototype (fst kv) = false) es ->
    walkFiles base (Dir (Some es)) base = Ok files ->
    sum_counts (sorted files) = N.of_nat (List.length files)
    /\ sum_sizes (sorted files) = totalSize files.
Proof.
  intros base es files Hes Hrun.
  apply grouping_lossless.
  assert (Hnames : Forall (fun kv => entry_name (fst kv) = true) es)
    by (eapply Forall_impl; [| exact Hes]; now intros kv [H _]).
  pose proof (topDir_top_level_name base es files Hnames Hrun) as Hkeys.
  rewrite Forall_forall in *.
  intros f Hf.
  destruct (Hkeys f Hf) as (name & e & Hin & Hk & _).
  unfold tracked. rewrite Hk.
  destruct (Hes _ Hin) as [_ Hp]. simpl in Hp. now rewrite Hp.
Qed.

Lemma grouping_lossless_unit_witness :
  sum_counts (sorted (inventory [] unit_root_file))
  = N.of_nat (List.length (inventory [] unit_root_file))
  /\ sum_sizes (sorted (inventory [] unit_root_file))
     = totalSize (inventory [] unit_root_file).
Proof.
  apply (grouping_lossless_unit
           ["fn.func"]
           [ ("index.js", plain 100);
             ("src", Dir (Some [("app.js", plain 10)])) ]).
  - repeat constructor.
  - reflexivity.
Defined.

(** X5: every key of the table is the name of an entry at the root of the
    unit, a directory or a file alike; the key "(root)" can only be there
    when an entry at the root of the unit is named so. *)
Theorem table_keys_are_root_names :
  forall base es files,
    Forall (fun kv => entry_name (fst kv) = true) es ->
    walkFiles base (Dir (Some es)) base = Ok files ->
    (forall k g, In (k, g) (sorted files) -> In k (map fst es))
    /\ (~ In "(root)" (map fst es) ->
        forall g, ~ In ("(root)", g) (sorted files)).
Proof.
  intros base es files Hnames Hrun.
  assert (Hkeys : forall k g, In (k, g) (sorted files) -> In k (map fst es)).
  { intros k g Hrow.
    apply sorted_row_iff in Hrow as (_ & Hnz & _).
    apply tally_nonzero in Hnz as (f & Hf & Hk).
    pose proof (topDir_top_level_name base es files Hnames Hrun) as Hall.
    rewrite Forall_forall in Hall.
    destruct (Hall f Hf) as (name & e & Hin & Hname & _).
    apply (in_map fst) in Hin. simpl in Hin. congruence. }
  split; [exact Hkeys |].
  intros Hno g Hrow. apply Hno. eapply Hkeys, Hrow.
Qed.

Lemma table_keys_are_root_names_witness :
  (forall k g,
      In (k, g) (sorted (inventory [] unit_root_file)) ->
      In k ["index.js"; "src"])
  /\ (~ In "(root)" ["index.js"; "src"] ->
      forall g, ~ In ("(root)", g) (sorted (inventory [] unit_root_file))).
Proof.
  apply (table_keys_are_root_names
           ["fn.func"]
           [ ("index.js", plain 100);
             ("src", Dir (Some [("app.js", plain 10)])) ]).
  - repeat constructor.
  - reflexivity.
Defined.

(** ** Failure and results of the locator *)

Lemma listable_dir :
  forall es, listable (Dir (Some es)) = listable_entries es.
Proof. reflexivity. Qed.

Lemma find_loop_unlistable :
  forall dir es,
    Forall (fun kv => forall dir',
                listable (snd kv) = false ->
                findFuncDirs dir' (snd kv) = Throw FsError) es ->
    listable_entries es = false ->
    forall results, find_loop dir es results = Throw FsError.
Proof.
  intros dir es IH.
  induction IH as [| [name e] es He _ IHes]; intros Hl results.
  - discriminate.
  - simpl in Hl, He. rewrite find_loop_cons.
    destruct (isDirectory e) eqn:Hd; simpl in Hl.
    + destruct (endsWith name ".func") eqn:Hs; simpl in Hl.
      * now apply IHes.
      * destruct (listable e) eqn:Hle.
        -- destruct (findFuncDirs_located e (dir ++ [name])%list Hle)
             as (sub & -> & _).
           now apply IHes.
        -- now rewrite He.
    + now apply IHes.
Qed.

Lemma findFuncDirs_unlistable :
  forall n dir, listable n = false -> findFuncDirs dir n = Throw FsError.
Proof.
  induction n as [st c | | es IH] using node_induction; intros dir Hl;
    try reflexivity.
  rewrite findFuncDirs_dir. rewrite listable_dir in Hl.
  apply find_loop_unlistable; [| assumption].
  eapply Forall_impl; [| exact IH]. intros kv H dir'. apply H.
Qed.

Lemma unit_at_directory :
  forall dir n u, unit_at dir n u -> isDirectory (snd u) = true.
Proof.
  induction 1; assumption.
Qed.

Lemma append_assoc_str :
  forall a b c : string, (a ++ b) ++ c = a ++ b ++ c.
Proof.
  induction a as [| x a IH]; intros b c; simpl.
  - reflexivity.
  - now rewrite IH.
Qed.

Lemma join_last :
  forall d l x, exists front, join d (l ++ [x])%list = front ++ x.
Proof.
  intros d l x. induction l as [| a l (front & IH)].
  - now exists EmptyString.
  - destruct l as [| b l].
    + exists (a ++ d). simpl. symmetry. apply append_assoc_str.
    + exists (a ++ d ++ front).
      change (join d ((a :: b :: l) ++ [x])%list)
        with (a ++ d ++ join d ((b :: l) ++ [x])%list).
      rewrite IH. now rewrite !append_assoc_str.
Qed.

(** X6: when the output root, or a directory outside the units, cannot be
    listed, the locator throws: the run ends after the banner with the
    uncaught error and status 1, and no unit is reported, the sound ones
    included. *)
Theorem unlistable_root_aborts :
  forall w root,
    functions w = Some root ->
    listable root = false ->
    findFuncDirs (outputDir w) root = Throw FsError
    /\ main w = (banner, Uncaught FsError)
    /\ status (snd (main w)) = 1.
Proof.
  intros w root Hroot Hl.
  pose proof (findFuncDirs_unlistable root (outputDir w) Hl) as Hfind.
  assert (Hmain : main w = (banner, Uncaught FsError)).
  { unfold main. rewrite Hroot. fold (outputDir w). rewrite Hfind.
    reflexivity. }
  rewrite Hmain. auto.
Qed.

Lemma unlistable_root_aborts_witness :
  findFuncDirs (outputDir world_unlistable)
               (Dir (Some [("a.func", unit_clean); ("api", Dir None)]))
  = Throw FsError
  /\ main world_unlistable = (banner, Uncaught FsError)
  /\ status (snd (main world_unlistable)) = 1.
Proof.
  apply (unlistable_root_aborts world_unlistable); reflexivity.
Defined.

(** X7: every unit that the locator returns is a directory, lies below the
    directory the search started from, and is shown under a name that ends
    in ".func". *)
Theorem located_units_named :
  forall dir root units,
    findFuncDirs dir root = Ok units ->
    Forall (fun u =>
              isDirectory (snd u) = true
              /\ (exists rest, rest <> [] /\ fst u = (dir ++ rest)%list
                               /\ funcName dir u = join "/" rest)
              /\ endsWith (funcName dir u) ".func" = true) units.
Proof.
  intros dir root units Hfind.
  destruct (listable root) eqn:Hl.
  - destruct (findFuncDirs_located root dir Hl) as (units' & Heq & Hin).
    assert (units' = units) by congruence. subst units'.
    apply Forall_forall. intros u Hu.
    apply Hin in Hu.
    split; [eapply unit_at_directory, Hu |].
    apply unit_at_shape in Hu as (rest & name & Hp & Hs & _).
    assert (Hname : funcName dir u = join "/" (rest ++ [name])%list)
      by (unfold funcName; rewrite Hp; apply path_relative_below).
    split.
    + exists (rest ++ [name])%list. repeat split; trivial.
      now destruct rest.
    + rewrite Hname.
      destruct (join_last "/" rest name) as (front & ->).
      apply endsWith_spec in Hs as (front' & ->).
      apply endsWith_spec. exists (front ++ front').
      symmetry. apply append_assoc_str.
  - rewrite (findFuncDirs_unlistable root dir Hl) in Hfind. discriminate.
Qed.

Lemma located_units_named_witness :
  Forall (fun u =>
            isDirectory (snd u) = true
            /\ (exists rest, rest <> [] /\ fst u = (["out"] ++ rest)%list
                             /\ funcName ["out"] u = join "/" rest)
            /\ endsWith (funcName ["out"] u) ".func" = true)
         [ (["out"; "api"; "user.func"], Dir (Some []));
           (["out"; "index.func"], Dir (Some [("inner.func", Dir None)])) ].
Proof.
  apply (located_units_named ["out"] root_nested). reflexivity.
Defined.

(** ** Complete blocks and complete runs *)

Lemma for_each_completes :
  forall (A : Type) (body : A -> io unit) l,
    Forall (fun u => snd (body u) = Normal tt) l ->
    for_each l body = (flat_map (fun u => fst (body u)) l, Normal tt).
Proof.
  intros A body l H. induction H as [| u l Hu _ IH]; simpl.
  - reflexivity.
  - now rewrite (bind_normal _ _ (body u) _ tt Hu), IH.
Qed.

Lemma report_completes :
  forall out d files,
    snd (describe (snd d)) = Normal tt ->
    walkFiles (fst d) (snd d) (fst d) = Ok files ->
    report out d
    = ((header out d ++ fst (describe (snd d)) ++ fst (render files))%list,
       Normal tt).
Proof.
  intros out d files Hd Hw. rewrite report_unfold.
  unfold bind at 1. cbn [fst snd].
  rewrite (bind_normal _ _ (describe (snd d)) _ tt Hd).
  rewrite Hw. cbn [lift]. rewrite bind_ret.
  cbn [fst snd]. now rewrite render_normal.
Qed.

(** X8: when the output root holds no unit, the run writes the banner and
    one line saying so and exits with status 0; the closing line of a
    complete run is not written. *)
Theorem no_units_exits_cleanly :
  forall w root,
    functions w = Some root ->
    findFuncDirs (outputDir w) root = Ok [] ->
    main w
    = ((banner ++ ["No .func directories found in output."])%list, Exit 0)
    /\ status (snd (main w)) = 0
    /\ ~ In closing (fst (main w)).
Proof.
  intros w root Hroot Hfind.
  assert (Hmain :
            main w
            = ((banner ++ ["No .func directories found in output."])%list,
               Exit 0))
    by (unfold main; rewrite Hroot; fold (outputDir w); rewrite Hfind;
        reflexivity).
  rewrite Hmain. repeat split.
  simpl. intros H.
  repeat (destruct H as [H | H]; [discriminate |]). exact H.
Qed.

Lemma no_units_exits_cleanly_witness :
  main world_no_units
  = ((banner ++ ["No .func directories found in output."])%list, Exit 0)
  /\ status (snd (main world_no_units)) = 0
  /\ ~ In closing (fst (main world_no_units)).
Proof.
  apply (no_units_exits_cleanly
           world_no_units
           (Dir (Some [("static", Dir (Some [("robots.txt", plain 24)]))])));
    reflexivity.
Defined.

(** X9: when every located unit gets a complete block, the run writes the
    banner, the blocks of the units in the order the locator returned them,
    and the closing line, and ends normally with status 0, whatever the
    blocks report. *)
Theorem complete_run :
  forall w root units,
    functions w = Some root ->
    findFuncDirs (outputDir w) root = Ok units ->
    units <> [] ->
    Forall (completes (outputDir w)) units ->
    main w = ((banner ++ blocks (outputDir w) units ++ [closing])%list,
              Normal tt)
    /\ status (snd (main w)) = 0.
Proof.
  intros w root units Hroot Hfind Hne Hall.
  assert (Hmain :
            main w = ((banner ++ blocks (outputDir w) units ++ [closing])%list,
                      Normal tt)).
  { unfold main. rewrite Hroot. fold (outputDir w). rewrite Hfind.
    pose proof (for_each_completes _ (report (outputDir w)) units Hall) as Hfe.
    assert (Hlen : Nat.eqb (List.length units) 0 = false)
      by (destruct units; [contradiction | reflexivity]).
    cbn [lift].
    rewrite !bind_log. cbn [fst snd].
    rewrite !bind_ret, Hlen, !bind_ret.
    rewrite (bind_normal _ _ _ _ tt (f_equal snd Hfe)), Hfe.
    reflexivity. }
  rewrite Hmain. auto.
Qed.

Lemma complete_run_witness :
  let out := outputDir world_sound in
  main world_sound
  = ((banner
        ++ blocks out [ ((out ++ ["a.func"])%list, unit_collapsed_usr);
                        ((out ++ ["b.func"])%list, unit_clean) ]
        ++ [closing])%list,
     Normal tt)
  /\ status (snd (main world_sound)) = 0.
Proof.
  intros out.
  apply (complete_run
           world_sound
           (Dir (Some [("a.func", unit_collapsed_usr); ("b.func", unit_clean)]))).
  - reflexivity.
  - reflexivity.
  - discriminate.
  - repeat constructor.
Defined.

(** X10: a unit whose descriptor step completes and whose inventory
    succeeds gets a complete block: the two header lines, the descriptor
    lines, the two totals, the heading of the table, one row for each group,
    and the verdict; the block ends normally whether or not groups are
    flagged. *)
Theorem report_block :
  forall out d files,
    snd (describe (snd d)) = Normal tt ->
    walkFiles (fst d) (snd d) (fst d) = Ok files ->
    completes out d
    /\ exists verdict,
        fst (report out d)
        = (header out d
             ++ fst (describe (snd d))
             ++ ["  Total files: " ++ dec (N.of_nat (List.length files));
                 "  Total size: " ++ formatSize (totalSize files);
                 nl ++ "  Top-level directories:"]%string
             ++ map row (sorted files)
             ++ verdict)%list
        /\ verdict <> [].
Proof.
  intros out d files Hd Hw.
  pose proof (report_completes out d files Hd Hw) as Hrep.
  split; [unfold completes; now rewrite Hrep |].
  rewrite Hrep, render_lines. cbn [fst].
  eexists. split.
  - reflexivity.
  - destruct (suspiciousDirs files); discriminate.
Qed.

Lemma report_block_witness :
  let d := (["out"; "a.func"], unit_clean) in
  let files := inventory [] unit_clean in
  completes ["out"] d
  /\ exists verdict,
      fst (report ["out"] d)
      = (header ["out"] d
           ++ fst (describe (snd d))
           ++ ["  Total files: " ++ dec (N.of_nat (List.length files));
               "  Total size: " ++ formatSize (totalSize files);
               nl ++ "  Top-level directories:"]%string
           ++ map row (sorted files)
           ++ verdict)%list
      /\ verdict <> [].
Proof.
  intros d files.
  apply (report_block ["out"] d files); reflexivity.
Defined.

(** ** The descriptor step *)

Lemma describe_steps :
  forall unit v hv ht rv rt,
    existsSync unit ".vc-config.json" = true ->
    readJson unit ".vc-config.json" = Ok v ->
    get_prop v "handler" = Ok hv ->
    to_string hv = Ok ht ->
    get_prop v "runtime" = Ok rv ->
    to_string rv = Ok rt ->
    describe unit
    = match js_includes hv "vercel/path0" with
      | Ok true =>
          ([handler_line ht; runtime_line rt; handler_warning], Normal tt)
      | Ok false => ([handler_line ht; runtime_line rt], Normal tt)
      | Throw e => ([handler_line ht; runtime_line rt], Uncaught e)
      end.
Proof.
  intros unit v hv ht rv rt He Hj Hh Hht Hr Hrt.
  unfold describe. rewrite He, Hj.
  cbn [lift]. rewrite bind_ret, Hh.
  cbn [lift]. rewrite bind_ret, Hht.
  cbn [lift]. rewrite bind_ret, bind_log, Hr.
  cbn [lift]. rewrite bind_ret, Hrt.
  cbn [lift]. rewrite bind_ret, bind_log.
  destruct (js_includes hv "vercel/path0") as [[] | e]; reflexivity.
Qed.

(** X11: a unit without a descriptor is reported all the same: the
    descriptor step writes nothing and raises nothing, and the block goes
    from the header straight to the totals. *)
Theorem absent_descriptor_omitted :
  forall out d files,
    existsSync (snd d) ".vc-config.json" = false ->
    walkFiles (fst d) (snd d) (fst d) = Ok files ->
    describe (snd d) = ([], Normal tt)
    /\ report out d = ((header out d ++ fst (render files))%list, Normal tt).
Proof.
  intros out d files He Hw.
  assert (Hd : describe (snd d) = ([], Normal tt))
    by (unfold describe; now rewrite He).
  split; [exact Hd |].
  rewrite (report_completes out d files) by (trivial; now rewrite Hd).
  now rewrite Hd.
Qed.

Lemma absent_descriptor_omitted_witness :
  let d := (["out"; "a.func"], unit_bare) in
  describe (snd d) = ([], Normal tt)
  /\ report ["out"] d
     = ((header ["out"] d ++ fst (render (inventory [] unit_bare)))%list,
        Normal tt).
Proof.
  intros d.
  apply (absent_descriptor_omitted ["out"] d (inventory [] unit_bare));
    reflexivity.
Defined.

(** X12: for a descriptor whose handler is a string and whose runtime
    prints, the descriptor step writes the handler line and the runtime
    line and completes; the handler warning is among its lines exactly when
    the handler contains "vercel/path0". *)
Theorem handler_warning_iff_marker :
  forall unit v h rv rt,
    existsSync unit ".vc-config.json" = true ->
    readJson unit ".vc-config.json" = Ok v ->
    get_prop v "handler" = Ok (Val (JStr h)) ->
    get_prop v "runtime" = Ok rv ->
    to_string rv = Ok rt ->
    snd (describe unit) = Normal tt
    /\ firstn 2 (fst (describe unit)) = [handler_line h; runtime_line rt]
    /\ (In handler_warning (fst (describe unit))
        <-> includes h "vercel/path0" = true).
Proof.
  intros unit v h rv rt He Hj Hh Hr Hrt.
  rewrite (describe_steps unit v (Val (JStr h)) h rv rt He Hj Hh eq_refl Hr Hrt).
  cbn [js_includes].
  destruct (includes h "vercel/path0"); cbn [fst snd firstn].
  - repeat split; trivial. intros _. simpl. auto.
  - repeat split; trivial; try discriminate.
    intros [H | [H | []]]; discriminate H.
Qed.

Lemma handler_warning_iff_marker_witness :
  snd (describe unit_clean) = Normal tt
  /\ firstn 2 (fst (describe unit_clean))
     = [handler_line "index.js"; runtime_line "nodejs22.x"]
  /\ (In handler_warning (fst (describe unit_clean))
      <-> includes "index.js" "vercel/path0" = true).
Proof.
  apply (handler_warning_iff_marker
           unit_clean (vc_config "index.js" "nodejs22.x")
           "index.js" (Val (JStr "nodejs22.x")) "nodejs22.x");
    reflexivity.
Defined.

(** X13: a descriptor that parses but gives no handler with an [includes]
    method ends the run: when the parsed value is [null] the block stops
    after its header; when the handler is absent, or is neither a string
    nor an array, the handler and runtime lines are written first.  Either
    way the block ends on the uncaught [TypeError], before the inventory. *)
Theorem descriptor_without_handler_aborts :
  forall out d v,
    existsSync (snd d) ".vc-config.json" = true ->
    readJson (snd d) ".vc-config.json" = Ok v ->
    (v = JNull -> report out d = (header out d, Uncaught TypeError))
    /\ (forall hv ht rv rt,
           get_prop v "handler" = Ok hv ->
           (forall h, hv <> Val (JStr h)) ->
           (forall elems, hv <> Val (JArr elems)) ->
           to_string hv = Ok ht ->
           get_prop v "runtime" = Ok rv ->
           to_string rv = Ok rt ->
           report out d
           = ((header out d ++ [handler_line ht; runtime_line rt])%list,
              Uncaught TypeError)).
Proof.
  intros out d v He Hj. split.
  - intros ->.
    assert (Hd : describe (snd d) = ([], Uncaught TypeError))
      by (unfold describe; rewrite He, Hj; reflexivity).
    rewrite (report_describe_throws out d TypeError) by now rewrite Hd.
    rewrite Hd. reflexivity.
  - intros hv ht rv rt Hh Hstr Harr Hht Hr Hrt.
    pose proof (describe_steps (snd d) v hv ht rv rt He Hj Hh Hht Hr Hrt) as Hd.
    assert (Hinc : js_includes hv "vercel/path0" = Throw TypeError).
    { destruct hv as [| []]; try reflexivity.
      - now destruct (Hstr s).
      - now destruct (Harr elems). }
    rewrite Hinc in Hd.
    rewrite (report_describe_throws out d TypeError) by now rewrite Hd.
    now rewrite Hd.
Qed.

Lemma descriptor_without_handler_aborts_witness :
  report ["out"] (["out"; "a.func"], unit_null_descriptor)
  = (header ["out"] (["out"; "a.func"], unit_null_descriptor),
     Uncaught TypeError)
  /\ report ["out"] (["out"; "a.func"], unit_no_handler)
     = ((header ["out"] (["out"; "a.func"], unit_no_handler)
           ++ [handler_line "undefined"; runtime_line "nodejs22.x"])%list,
        Uncaught TypeError).
Proof.
  split.
  - apply (proj1 (descriptor_without_handler_aborts
                    ["out"] (["out"; "a.func"], unit_null_descriptor) JNull
                    eq_refl eq_refl)).
    reflexivity.
  - apply (proj2 (descriptor_without_handler_aborts
                    ["out"] (["out"; "a.func"], unit_no_handler)
                    (JObj [("runtime", JStr "nodejs22.x")])
                    eq_refl eq_refl)
             Undefined "undefined" (Val (JStr "nodejs22.x")) "nodejs22.x");
      try reflexivity; discriminate.
Defined.

(** ** The verdict of a block *)

Lemma suspicious_not_inherited :
  forall k, in_prototype k = true -> suspicious k = false.
Proof.
  intros k H. apply existsb_eqb_in in H.
  repeat (destruct H as [<- | H]; [reflexivity |]).
  contradiction.
Qed.

Lemma suspiciousDirs_empty_iff :
  forall files,
    suspiciousDirs files = []
    <-> forall f, In f files -> suspicious (topDir f) = false.
Proof.
  intros files. split.
  - intros Hnone f Hf.
    destruct (suspicious (topDir f)) eqn:Hs; [| reflexivity].
    assert (Hrow : In (topDir f, tally (topDir f) files) (sorted files)).
    { apply sorted_row_iff. repeat split.
      - destruct (in_prototype (topDir f)) eqn:Hp; [| reflexivity].
        apply suspicious_not_inherited in Hp. congruence.
      - apply tally_nonzero. now exists f. }
    assert (Hin : In (topDir f, tally (topDir f) files) (suspiciousDirs files))
      by (apply filter_In; split; assumption).
    rewrite Hnone in Hin. contradiction.
  - intros Hall.
    destruct (suspiciousDirs files) as [| [k g] l] eqn:Hs; [reflexivity |].
    assert (Hin : In (k, g) (suspiciousDirs files)) by (rewrite Hs; now left).
    apply filter_In in Hin as [Hrow Hk]. simpl in Hk.
    apply sorted_row_iff in Hrow as (_ & Hnz & _).
    apply tally_nonzero in Hnz as (f & Hf & <-).
    rewrite (Hall f Hf) in Hk. discriminate.
Qed.

(** X14: the verdict of a block follows the keys of the inventory.  When no
    file has a key that starts with a pattern, the lines after the table are
    the single confirmation line.  When some file has such a key, they are
    the alarm: its heading, the flagged rows in the order of the table, and
    the two advisory lines. *)
Theorem verdict_follows_keys :
  forall files,
    ((forall f, In f files -> suspicious (topDir f) = false) ->
     fst (render files)
     = (totals files ++ map row (sorted files) ++ confirmation)%list)
    /\ ((exists f, In f files /\ suspicious (topDir f) = true) ->
        suspiciousDirs files <> []
        /\ fst (render files)
           = (totals files ++ map row (sorted files)
                ++ alarm (suspiciousDirs files))%list).
Proof.
  intros files. rewrite render_lines. split.
  - intros Hall. apply suspiciousDirs_empty_iff in Hall.
    now rewrite Hall.
  - intros (f & Hf & Hs).
    assert (Hne : suspiciousDirs files <> []).
    { intros Hnone.
      rewrite (proj1 (suspiciousDirs_empty_iff files) Hnone f Hf) in Hs.
      discriminate. }
    split; [exact Hne |].
    destruct (suspiciousDirs files); [contradiction | reflexivity].
Qed.

Lemma verdict_follows_keys_witness :
  fst (render (inventory [] unit_clean))
  = (totals (inventory [] unit_clean)
       ++ map row (sorted (inventory [] unit_clean)) ++ confirmation)%list
  /\ (suspiciousDirs (inventory [] unit_collapsed_usr) <> []
      /\ fst (render (inventory [] unit_collapsed_usr))
         = (totals (inventory [] unit_collapsed_usr)
              ++ map row (sorted (inventory [] unit_collapsed_usr))
              ++ alarm (suspiciousDirs (inventory [] unit_collapsed_usr)))%list).
Proof.
  split.
  - apply (proj1 (verdict_follows_keys (inventory [] unit_clean))).
    intros f Hf. vm_compute in Hf.
    repeat (destruct Hf as [<- | Hf]; [reflexivity |]). contradiction.
  - apply (proj2 (verdict_follows_keys (inventory [] unit_collapsed_usr))).
    exists {| fpath := "usr/lib.so"; fsize := 2048 |}.
    split; [right; left; reflexivity | reflexivity].
Defined.

(** ** Rounding at the top of the kibibyte range *)

(** X15: from 1024 bytes up to 1048575 the formatter prints between 1.0 and
    1024.0 kibibytes, and from 1048576 on at least 1.0 mebibytes; the value
    is rounded without a change of unit, so that the last 51 byte counts of
    the kibibyte range are printed as "1024.0 KB". *)
Theorem formatSize_ranges :
  forall bytes,
    (1024 <= bytes -> bytes < 1048576 ->
     10 <= tenths bytes 1024 <= 10240
     /\ formatSize bytes = one_decimal (tenths bytes 1024) ++ " KB"
     /\ (1048525 <= bytes -> formatSize bytes = "1024.0 KB"))
    /\ (1048576 <= bytes ->
        10 <= tenths bytes 1048576
        /\ formatSize bytes = one_decimal (tenths bytes 1048576) ++ " MB").
Proof.
  intros bytes. split.
  - intros Hlo Hhi.
    pose proof (rounding_bounds bytes 1024 eq_refl) as [Hb1 Hb2].
    assert (Hfmt : formatSize bytes = one_decimal (tenths bytes 1024) ++ " KB").
    { unfold formatSize. change (1024 * 1024) with 1048576.
      destruct (N.leb_spec 1048576 bytes); [lia |].
      destruct (N.leb_spec 1024 bytes); [reflexivity | lia]. }
    split; [lia |]. split; [exact Hfmt |].
    intros Htop. rewrite Hfmt.
    assert (Ht : tenths bytes 1024 = 10240) by lia.
    now rewrite Ht.
  - intros Hlo.
    pose proof (rounding_bounds bytes 1048576 eq_refl) as [Hb1 Hb2].
    split; [lia |].
    unfold formatSize. change (1024 * 1024) with 1048576.
    destruct (N.leb_spec 1048576 bytes); [reflexivity | lia].
Qed.

Lemma formatSize_ranges_witness :
  (10 <= tenths 1048575 1024 <= 10240
   /\ formatSize 1048575 = one_decimal (tenths 1048575 1024) ++ " KB"
   /\ (1048525 <= 1048575 -> formatSize 1048575 = "1024.0 KB"))
  /\ (10 <= tenths 1048576 1048576
      /\ formatSize 1048576 = one_decimal (tenths 1048576 1048576) ++ " MB").
Proof.
  split.
  - apply (proj1 (formatSize_ranges 1048575)).
    + discriminate.
    + reflexivity.
  - apply (proj2 (formatSize_ranges 1048576)). discriminate.
Defined.

(** ** Files at the root of a unit and the alarm *)

Lemma inventory_entries_file :
  forall rel es name size c,
    In (name, File (Some size) c) es ->
    In {| fpath := join "/" (rel ++ [name])%list; fsize := size |}
       (inventory_entries rel es).
Proof.
  intros rel es name size c.
  induction es as [| [name0 e0] es IH]; intros Hin; [contradiction |].
  simpl. apply in_or_app.
  destruct Hin as [Heq | Hin].
  - injection Heq as -> ->. left. now left.
  - right. now apply IH.
Qed.

Lemma walkFiles_ok_inventory :
  forall base es files,
    walkFiles base (Dir (Some es)) base = Ok files ->
    accessible (Dir (Some es)) = true /\ files = inventory [] (Dir (Some es)).
Proof.
  intros base es files Hrun.
  destruct (accessible (Dir (Some es))) eqn:Hacc.
  - pose proof (walkFiles_inventory (Dir (Some es)) base [] eq_refl Hacc) as H.
    rewrite app_nil_r in H. split; [reflexivity | congruence].
  - apply accessible_inaccessible in Hacc.
    rewrite (walkFiles_inaccessible _ Hacc) in Hrun. discriminate.
Qed.

(** X16: a file that lies directly at the root of a unit takes part in the
    detection under its own name: when that name starts with a pattern, the
    file is a flagged row of its own and the block carries the alarm, also
    when the unit holds no directory at all. *)
Theorem root_file_raises_alarm :
  forall base es files name size c,
    Forall (fun kv => entry_name (fst kv) = true) es ->
    walkFiles base (Dir (Some es)) base = Ok files ->
    In (name, File (Some size) c) es ->
    suspicious name = true ->
    In (name, tally name files) (suspiciousDirs files)
    /\ fst (render files)
       = (totals files ++ map row (sorted files)
            ++ alarm (suspiciousDirs files))%list.
Proof.
  intros base es files name size c Hnames Hrun Hin Hs.
  destruct (walkFiles_ok_inventory base es files Hrun) as [_ Hfiles].
  pose proof (inventory_entries_file [] es name size c Hin) as Hf.
  rewrite <- inventory_dir, <- Hfiles in Hf. simpl in Hf.
  assert (Hkey : topDir {| fpath := name; fsize := size |} = name).
  { apply (topDir_join _ name []); [reflexivity |].
    rewrite Forall_forall in Hnames. apply (Hnames _ Hin). }
  assert (Hrow : In (name, tally name files) (suspiciousDirs files)).
  { apply filter_In. split; [| exact Hs].
    apply sorted_row_iff. repeat split.
    - destruct (in_prototype name) eqn:Hp; [| reflexivity].
      apply suspicious_not_inherited in Hp. congruence.
    - apply tally_nonzero. eauto. }
  split; [exact Hrow |].
  rewrite render_lines.
  destruct (suspiciousDirs files); [contradiction | reflexivity].
Qed.

Lemma root_file_raises_alarm_witness :
  let files := inventory [] unit_options_file in
  In ("options.json", tally "options.json" files) (suspiciousDirs files)
  /\ fst (render files)
     = (totals files ++ map row (sorted files)
          ++ alarm (suspiciousDirs files))%list.
Proof.
  intros files.
  apply (root_file_raises_alarm
           ["fn.func"]
           [("index.js", plain 100); ("options.json", plain 20)]
           files "options.json" 20 (Text None)).
  - repeat constructor.
  - reflexivity.
  - right. left. reflexivity.
  - reflexivity.
Defined.

(** ** A unit without files *)

(** X17: a unit that can be read and holds no file, with no entry under the
    name of the descriptor, gets a complete block with totals of 0 files and
    "0 B", an empty table and the confirmation line. *)
Theorem empty_unit_block :
  forall out d,
    isDirectory (snd d) = true ->
    accessible (snd d) = true ->
    file_count (snd d) = 0 ->
    existsSync (snd d) ".vc-config.json" = false ->
    report out d
    = ((header out d
          ++ ["  Total files: 0"; "  Total size: 0 B";
              nl ++ "  Top-level directories:"]%string
          ++ confirmation)%list,
       Normal tt).
Proof.
  intros out [p n] Hdir Hacc Hcount He. simpl in *.
  pose proof (walkFiles_inventory n p [] Hdir Hacc) as Hw.
  rewrite app_nil_r in Hw.
  destruct (inventory_totals n [] Hacc Hdir) as [Hlen _].
  rewrite Hcount in Hlen.
  assert (Hnil : inventory [] n = [])
    by (destruct (inventory [] n); [reflexivity | simpl in Hlen; lia]).
  rewrite Hnil in Hw.
  assert (Hd : describe n = ([], Normal tt))
    by (unfold describe; now rewrite He).
  rewrite (report_completes out (p, n) []) by (trivial; simpl; now rewrite Hd).
  simpl snd. rewrite Hd. reflexivity.
Qed.

Lemma empty_unit_block_witness :
  let d := (["out"; "a.func"], unit_hollow) in
  report ["out"] d
  = ((header ["out"] d
        ++ ["  Total files: 0"; "  Total size: 0 B";
            nl ++ "  Top-level directories:"]%string
        ++ confirmation)%list,
     Normal tt).
Proof.
  intros d. apply (empty_unit_block ["out"] d); reflexivity.
Defined.

(** ** A descriptor that cannot be read *)

(** X18: when the descriptor of a unit is there but cannot be read (its
    name is taken by a directory, or the read is refused), the block stops
    after its two header lines and ends on the uncaught error of the file
    system. *)
Theorem unreadable_descriptor_aborts :
  forall out d,
    existsSync (snd d) ".vc-config.json" = true ->
    readJson (snd d) ".vc-config.json" = Throw FsError ->
    report out d = (header out d, Uncaught FsError).
Proof.
  intros out d He Hj.
  assert (Hd : describe (snd d) = ([], Uncaught FsError))
    by (unfold describe; now rewrite He, Hj).
  rewrite (report_describe_throws out d FsError) by now rewrite Hd.
  rewrite Hd. reflexivity.
Qed.

Lemma unreadable_descriptor_aborts_witness :
  let d := (["out"; "a.func"], unit_descriptor_is_directory) in
  report ["out"] d = (header ["out"] d, Uncaught FsError).
Proof.
  intros d. apply (unreadable_descriptor_aborts ["out"] d); reflexivity.
Defined.

(** ** The exit status *)

Lemma report_no_exit :
  forall out d,
    snd (report out d) = Normal tt \/ exists e, snd (report out d) = Uncaught e.
Proof.
  intros out d.
  destruct (describe_no_exit (snd d)) as [Hn | (e & He)].
  - destruct (walkFiles (fst d) (snd d) (fst d)) as [files | e] eqn:Hw.
    + left. now rewrite (report_completes out d files Hn Hw).
    + right. exists e. now rewrite (report_walk_throws out d e Hn Hw).
  - right. exists e. now rewrite (report_describe_throws out d e He).
Qed.

Lemma for_each_report_no_exit :
  forall out units,
    snd (for_each units (report out)) = Normal tt
    \/ exists e, snd (for_each units (report out)) = Uncaught e.
Proof.
  intros out units. induction units as [| u units IH]; simpl.
  - now left.
  - destruct (report_no_exit out u) as [Hn | (e & He)].
    + rewrite (bind_normal _ _ (report out u) _ tt Hn). exact IH.
    + right. exists e. now rewrite (bind_uncaught _ _ (report out u) _ e He).
Qed.

(** X19: every run starts with the three banner lines, and it never asks
    for a failing exit status: it ends normally, or by [process.exit(0)], or
    on an exception that nothing catches.  Flagged directories never change
    the status. *)
Theorem run_status :
  forall w,
    firstn 3 (fst (main w)) = banner
    /\ (ends_well (snd (main w)) \/ exists e, snd (main w) = Uncaught e)
    /\ (status (snd (main w)) = 0 \/ status (snd (main w)) = 1).
Proof.
  intros w.
  assert (H : firstn 3 (fst (main w)) = banner
              /\ (ends_well (snd (main w))
                  \/ exists e, snd (main w) = Uncaught e)).
  { unfold main. fold (outputDir w).
    destruct (functions w) as [root |]; [| split; [reflexivity | now left]].
    destruct (findFuncDirs (outputDir w) root) as [units | e];
      [| split; [reflexivity | right; now exists e]].
    cbn [lift]. rewrite !bind_log. cbn [fst snd]. rewrite !bind_ret.
    destruct units as [| u units]; [split; [reflexivity | now left] |].
    cbn [List.length Nat.eqb]. rewrite bind_ret.
    split; [reflexivity |].
    destruct (for_each_report_no_exit (outputDir w) (u :: units))
      as [Hn | (e & He)].
    - left. now rewrite (bind_normal _ _ _ _ tt Hn).
    - right. exists e. now rewrite (bind_uncaught _ _ _ _ e He). }
  destruct H as [Hb Hc]. repeat split; trivial.
  destruct Hc as [Hw | (e & ->)]; [| now right].
  left. destruct (snd (main w)); simpl in *; trivial. contradiction.
Qed.
